(** * fastavro/bytes_speed_compare.pyx

    A shallow embedding of the byte cursor [ByteReader], its two unchecked
    read primitives and the four loops that count the byte ['l'] in a buffer,
    followed by the properties of the cursor specification that can be
    stated on them.

    C integers are integers of [Z] with their two's complement wrap-around
    written out, for an LP64 target: [int] is 32 bits wide, [long] and
    [Py_ssize_t] 64 bits, [char] a signed byte.  A [const char*] is an
    offset into a read-only memory.  The [while] loops take fuel; the
    properties give the fuel that is enough. *)

From Stdlib Require Import ZArith List Lia Bool.
From Stdlib Require Import Strings.Byte.
Import ListNotations.
Local Open Scope Z_scope.

(** ** C integer types *)

Module CInt.

(** The value a signed [w]-bit register holds after [z] is stored in it. *)
Definition swrap (w z : Z) : Z := (z + 2 ^ (w - 1)) mod 2 ^ w - 2 ^ (w - 1).

Definition wrap_char : Z -> Z := swrap 8.
Definition wrap_int : Z -> Z := swrap 32.
Definition wrap_long : Z -> Z := swrap 64.

(** The cast [<unsigned char>]. *)
Definition wrap_uchar (z : Z) : Z := z mod 2 ^ 8.

Definition INT_MAX : Z := 2 ^ 31 - 1.
Definition LONG_MAX : Z := 2 ^ 63 - 1.

Definition in_int (z : Z) : Prop := - 2 ^ 31 <= z <= INT_MAX.
Definition in_long (z : Z) : Prop := - 2 ^ 63 <= z <= LONG_MAX.

End CInt.
Export CInt.

(** ** Memory and pointers *)

Definition char : Type := Z.

(** A [const char*]: the memory it points into and its offset there.  The
    code never writes through it. *)
Record char_ptr : Type := mk_ptr { mem : Z -> char; ofs : Z }.

(** [p[i]] *)
Definition deref (p : char_ptr) (i : Z) : char := mem p (ofs p + i).

(** [p + k] *)
Definition ptr_add (p : char_ptr) (k : Z) : char_ptr :=
  {| mem := mem p; ofs := ofs p + k |}.

(** The character literal [b'l']. *)
Definition b_l : char := 108.

(** ** The cursor *)

(** [cdef struct ByteReader: const char* data; long pos; long length] *)
Record ByteReader : Type := mkByteReader
  { data : char_ptr; pos : Z; length : Z }.

Definition set_pos (br : ByteReader) (p : Z) : ByteReader :=
  {| data := data br; pos := p; length := length br |}.

(** [read_byte]: [c = br.data[br.pos]; br.pos += 1; return c].  There is no
    test of [pos] against [length] and no error result. *)
Definition read_byte (br : ByteReader) : char * ByteReader :=
  let c := deref (data br) (pos br) in
  let br := set_pos br (wrap_long (pos br + 1)) in
  (c, br).

(** [read_bytes]: [br.pos += num; return br.data + (br.pos - num)]. *)
Definition read_bytes (br : ByteReader) (num : Z) : char_ptr * ByteReader :=
  let br := set_pos br (wrap_long (pos br + num)) in
  (ptr_add (data br) (wrap_long (pos br - num)), br).

(** ** Loops *)

(** A [while] loop run for at most [fuel] tests of its condition; [None]
    when the fuel is used up before the condition turns false. *)
Fixpoint while {S : Type} (cond : S -> bool) (body : S -> S)
    (fuel : nat) (s : S) : option S :=
  match fuel with
  | O => None
  | Datatypes.S fuel' =>
      if cond s then while cond body fuel' (body s) else Some s
  end.

(** [range(n)] for a C int [n]: empty when [n <= 0]. *)
Definition range (n : Z) : list Z := map Z.of_nat (seq 0 (Z.to_nat n)).

(** [count_ls_cdef]: the indexed scan of [s[0 .. s_len)]. *)
Definition count_ls_cdef (s : char_ptr) (s_len : Z) : Z :=
  fold_left
    (fun count i => if deref s i =? b_l then wrap_int (count + 1) else count)
    (range s_len) 0.

(** The state of the two cursor loops: the by-value parameter [br] and the
    local [count]. *)
Definition reader_state : Type := (ByteReader * Z)%type.

Definition reader_cond (st : reader_state) : bool :=
  pos (fst st) <? length (fst st).

(** One turn of [count_ls_bytereader]:
    [if read_bytes(&br, 1)[0] == b'l': count += 1]. *)
Definition count_ls_bytereader_body (st : reader_state) : reader_state :=
  let (br, count) := st in
  let (p, br) := read_bytes br 1 in
  (br, if deref p 0 =? b_l then wrap_int (count + 1) else count).

(** One turn of [count_ls_bytereader_single]:
    [if read_byte(&br) == b'l': count += 1]. *)
Definition count_ls_bytereader_single_body (st : reader_state) : reader_state :=
  let (br, count) := st in
  let (c, br) := read_byte br in
  (br, if c =? b_l then wrap_int (count + 1) else count).

(** The loops with the cursor they end on; the functions return only the
    count, [br] being a copy of the caller's struct. *)
Definition count_ls_bytereader_loop (fuel : nat) (br : ByteReader)
  : option reader_state :=
  while reader_cond count_ls_bytereader_body fuel (br, 0).

Definition count_ls_bytereader (fuel : nat) (br : ByteReader) : option Z :=
  option_map snd (count_ls_bytereader_loop fuel br).

Definition count_ls_bytereader_single_loop (fuel : nat) (br : ByteReader)
  : option reader_state :=
  while reader_cond count_ls_bytereader_single_body fuel (br, 0).

Definition count_ls_bytereader_single (fuel : nat) (br : ByteReader)
  : option Z :=
  option_map snd (count_ls_bytereader_single_loop fuel br).

(** The two calls as a C caller sees them: the struct is copied into the
    parameter [br], so the caller gets the count and keeps its own cursor
    as it was. *)
Definition call_count_ls_bytereader (fuel : nat) (br : ByteReader)
  : option (Z * ByteReader) :=
  option_map (fun count => (count, br)) (count_ls_bytereader fuel br).

Definition call_count_ls_bytereader_single (fuel : nat) (br : ByteReader)
  : option (Z * ByteReader) :=
  option_map (fun count => (count, br)) (count_ls_bytereader_single fuel br).

(** ** Python objects *)

(** A [bytes] object. *)
Definition bytes : Type := list byte.

Definition len (s : bytes) : Z := Z.of_nat (List.length s).

(** The value of a byte as an [unsigned char] and as a (signed) [char]. *)
Definition uchar_of_byte (b : byte) : Z := Z.of_N (Byte.to_N b).
Definition char_of_byte (b : byte) : char := wrap_char (uchar_of_byte b).

(** A stream object as [count_ls_bytesio] uses it: [fo.read(size)] returns
    at most [size] bytes and the stream after the read. *)
Class Readable (F : Type) : Type := read : F -> nat -> bytes * F.

(** [io.BytesIO]: a private copy of the initial bytes and a position. *)
Record BytesIO : Type := mkBytesIO { getvalue : bytes; tell : nat }.

(** [io.BytesIO(s)] *)
Definition BytesIO_new (s : bytes) : BytesIO :=
  {| getvalue := s; tell := 0 |}.

(** [BytesIO.read(size)]: the bytes from the position on, at most [size] of
    them; the position moves by what was read; [b''] at the end. *)
Definition BytesIO_read (fo : BytesIO) (size : nat) : bytes * BytesIO :=
  let c := firstn size (skipn (tell fo) (getvalue fo)) in
  (c, {| getvalue := getvalue fo; tell := tell fo + List.length c |}).

#[export] Instance BytesIO_Readable : Readable BytesIO := BytesIO_read.

(** The loop of [count_ls_bytesio], entered with the chunk [c] last read:
    [while c: if <unsigned char>(c[0]) == b'l': count += 1; c = fo.read(1)].
    An empty [c] is false; otherwise [c[0]] is its first byte. *)
Fixpoint count_ls_bytesio_loop {F : Type} `{Readable F}
    (fuel : nat) (fo : F) (c : bytes) (count : Z) : option (F * Z) :=
  match fuel with
  | O => None
  | Datatypes.S fuel' =>
      match c with
      | [] => Some (fo, count)
      | c0 :: _ =>
          let count :=
            if wrap_uchar (char_of_byte c0) =? b_l
            then wrap_int (count + 1) else count in
          let (c, fo) := read fo 1%nat in
          count_ls_bytesio_loop fuel' fo c count
      end
  end.

(** [count_ls_bytesio]: [c = fo.read(1); count = 0; while c: ...]. *)
Definition count_ls_bytesio {F : Type} `{Readable F}
    (fuel : nat) (fo : F) : option Z :=
  let (c, fo) := read fo 1%nat in
  option_map snd (count_ls_bytesio_loop fuel fo c 0).

(** ** The Python entry points *)

Section EntryPoints.

(** What the memory holds outside the bytes objects the functions are
    given: nothing below depends on it. *)
Variable heap : Z -> char.

(** The memory of a bytes object seen from the address of its first
    byte: its bytes, the NUL CPython stores after them, and the rest of
    the heap. *)
Definition bytes_mem (s : bytes) : Z -> char :=
  fun a =>
    if (0 <=? a) && (a <? len s)
    then char_of_byte (nth (Z.to_nat a) s x00)
    else if a =? len s then 0 else heap a.

(** The conversion of a bytes object to [const char*]. *)
Definition bytes_as_ptr (s : bytes) : char_ptr :=
  {| mem := bytes_mem s; ofs := 0 |}.

(** [ByteReader(s, 0, len(s))]: [len(s)], a [Py_ssize_t], stored in the
    long [length]. *)
Definition ByteReader_new (s : bytes) : ByteReader :=
  {| data := bytes_as_ptr s; pos := 0; length := wrap_long (len s) |}.

(** [count_ls_cdef(s, len(s))]: [len(s)] is a [Py_ssize_t] passed for an
    [int]. *)
Definition py_count_ls_cdef (s : bytes) : Z :=
  count_ls_cdef (bytes_as_ptr s) (wrap_int (len s)).

Definition py_count_ls_bytereader (fuel : nat) (s : bytes) : option Z :=
  count_ls_bytereader fuel (ByteReader_new s).

Definition py_count_ls_bytereader_single (fuel : nat) (s : bytes)
  : option Z :=
  count_ls_bytereader_single fuel (ByteReader_new s).

Definition py_count_ls_bytesio (fuel : nat) (s : bytes) : option Z :=
  count_ls_bytesio fuel (BytesIO_new s).

End EntryPoints.

(** ** Notions the properties are stated with *)

(** The positions [lo, lo+1, ..., hi-1]. *)
Definition positions (lo hi : Z) : list Z :=
  map (fun k => lo + Z.of_nat k) (seq 0 (Z.to_nat (hi - lo))).

(** The number of positions [i] of [[lo, hi)] with [p[i] == t]. *)
Definition num_matches (p : char_ptr) (t : char) (lo hi : Z) : Z :=
  Z.of_nat (List.length (filter (fun i => deref p i =? t) (positions lo hi))).

(** The number of bytes ['l'] of a bytes object. *)
Definition count_l (s : bytes) : Z :=
  Z.of_nat (List.length (filter (Byte.eqb x6c) s)).

(** The part of a bytes object a C integer of its length covers. *)
Definition seen_int (s : bytes) : bytes :=
  firstn (Z.to_nat (wrap_int (len s))) s.
Definition seen_long (s : bytes) : bytes :=
  firstn (Z.to_nat (wrap_long (len s))) s.

(** The [n] chars that are read through [p]. *)
Definition view (p : char_ptr) (n : Z) : list char := map (deref p) (range n).

(** The byte a char stands for. *)
Definition byte_of_char (c : char) : byte :=
  match Byte.of_N (Z.to_N (wrap_uchar c)) with
  | Some b => b
  | None => x00
  end.

(** The invariant the specification gives the cursor. *)
Definition cursor_inv (br : ByteReader) : Prop :=
  0 <= pos br <= length br.

(** The cursor of a C caller: [pos] and [length] are longs. *)
Definition well_typed (br : ByteReader) : Prop :=
  in_long (pos br) /\ in_long (length br).

(** The two operations that move a cursor through a [ByteReader*]. *)
Inductive op : Type :=
| ReadByte
| ReadBytes (num : Z).

Definition run_op (o : op) (br : ByteReader) : ByteReader :=
  match o with
  | ReadByte => snd (read_byte br)
  | ReadBytes num => snd (read_bytes br num)
  end.

(** The cursors after each operation of a sequence. *)
Fixpoint trace (ops : list op) (br : ByteReader) : list ByteReader :=
  match ops with
  | [] => []
  | o :: ops => let br := run_op o br in br :: trace ops br
  end.

(** The precondition the specification gives each read, which the code
    leaves to the caller. *)
Definition in_bounds (o : op) (br : ByteReader) : bool :=
  match o with
  | ReadByte => pos br <? length br
  | ReadBytes num => (0 <=? num) && (pos br + num <=? length br)
  end.

Fixpoint all_in_bounds (ops : list op) (br : ByteReader) : bool :=
  match ops with
  | [] => true
  | o :: ops => in_bounds o br && all_in_bounds ops (run_op o br)
  end.

(** [n] successive calls of [read_byte]: the chars returned, in order, and
    the cursor left. *)
Fixpoint read_byte_n (n : nat) (br : ByteReader) : list char * ByteReader :=
  match n with
  | O => ([], br)
  | Datatypes.S n =>
      let (c, br) := read_byte br in
      let (cs, br) := read_byte_n n br in
      (c :: cs, br)
  end.

(** A full pass: [read_byte] as long as [pos < length], the test the
    counting loops make, collecting what it returns. *)
Definition read_pass (fuel : nat) (br : ByteReader)
  : option (ByteReader * list char) :=
  while (fun st => pos (fst st) <? length (fst st))
        (fun st => let (c, br) := read_byte (fst st) in (br, snd st ++ [c]))
        fuel (br, []).

(** *** The operations as the specification words them *)

Module Spec.

Inductive error : Type := OutOfBounds.

Inductive outcome (A : Type) : Type :=
| Returns (a : A)
| Raises (e : error).
Arguments Returns {A} a.
Arguments Raises {A} e.

(** "fails with OutOfBounds when position >= length; returns the byte at
    position; advances position by 1" *)
Definition read_byte (br : ByteReader) : outcome (char * ByteReader) :=
  if length br <=? pos br then Raises OutOfBounds
  else Returns (deref (data br) (pos br), set_pos br (pos br + 1)).


(** "Returns length - position" *)
Definition remaining (br : ByteReader) : Z := length br - pos br.


End Spec.

(** ** Sample inputs *)

Definition hello_world : bytes :=
  [x68; x65; x6c; x6c; x6f; x20; x77; x6f; x72; x6c; x64].

Definition no_heap : Z -> char := fun _ => 0.

(** Fresh cursors over [b"hello world"], [b"a"] and [b""]. *)
Definition cursor_hello : ByteReader := ByteReader_new no_heap hello_world.
Definition cursor_empty : ByteReader := ByteReader_new no_heap [].

(** [b"\0" * 2**31 + b"l"]: one byte more than an int can count. *)
Definition long_input : bytes := repeat x00 (Z.to_nat 2147483648) ++ [x6c].

(** [b"l" * 2**31] *)
Definition many_l : bytes := repeat x6c (Z.to_nat 2147483648).

(** Fuel for a loop over either of them. *)
Definition long_fuel : nat := Z.to_nat 2147483650.

(** * Properties *)

(** ** Wrap-around *)

Section Wrap.

Variable w : Z.
Hypothesis w_pos : 0 < w.

Let half_pos : 0 < 2 ^ (w - 1).
Proof. apply Z.pow_pos_nonneg; lia. Qed.

Let full_eq : 2 ^ w = 2 * 2 ^ (w - 1).
Proof. rewrite <- Z.pow_succ_r by lia. f_equal. lia. Qed.

Lemma swrap_range (z : Z) :
  - 2 ^ (w - 1) <= swrap w z <= 2 ^ (w - 1) - 1.
Proof.
  unfold swrap.
  pose proof (Z.mod_pos_bound (z + 2 ^ (w - 1)) (2 ^ w)) as B. lia.
Qed.

Lemma swrap_id (z : Z) :
  - 2 ^ (w - 1) <= z <= 2 ^ (w - 1) - 1 -> swrap w z = z.
Proof.
  intros Hz. unfold swrap. rewrite Z.mod_small; lia.
Qed.

Lemma swrap_add_l (a b : Z) : swrap w (swrap w a + b) = swrap w (a + b).
Proof.
  unfold swrap. f_equal.
  replace (((a + 2 ^ (w - 1)) mod 2 ^ w - 2 ^ (w - 1)) + b + 2 ^ (w - 1))
    with ((a + 2 ^ (w - 1)) mod 2 ^ w + b) by lia.
  rewrite Z.add_mod_idemp_l by lia. f_equal. lia.
Qed.

Lemma swrap_le (z : Z) : 0 <= z -> swrap w z <= z.
Proof.
  intros Hz. unfold swrap.
  pose proof (Z.mod_le (z + 2 ^ (w - 1)) (2 ^ w)) as B. lia.
Qed.

End Wrap.

Lemma wrap_long_id (z : Z) : in_long z -> wrap_long z = z.
Proof. intros H. apply swrap_id; [lia | exact H]. Qed.

Lemma wrap_int_id (z : Z) : in_int z -> wrap_int z = z.
Proof. intros H. apply swrap_id; [lia | exact H]. Qed.

Lemma wrap_long_in_long (z : Z) : in_long (wrap_long z).
Proof. apply (swrap_range 64); lia. Qed.

Lemma wrap_int_in_int (z : Z) : in_int (wrap_int z).
Proof. apply (swrap_range 32); lia. Qed.

Lemma wrap_int_add_l (a b : Z) : wrap_int (wrap_int a + b) = wrap_int (a + b).
Proof. apply swrap_add_l; lia. Qed.

(** One more match on a wrapped count. *)
Lemma wrap_int_step (c m : Z) :
  wrap_int (wrap_int (c + 1) + m) = wrap_int (c + (1 + m)).
Proof. rewrite wrap_int_add_l. f_equal. lia. Qed.

(** ** Positions and counts *)

Lemma positions_nil (lo hi : Z) : hi <= lo -> positions lo hi = [].
Proof.
  intros H. unfold positions.
  replace (Z.to_nat (hi - lo)) with O by lia. reflexivity.
Qed.

Lemma positions_cons (lo hi : Z) :
  lo < hi -> positions lo hi = lo :: positions (lo + 1) hi.
Proof.
  intros H. unfold positions.
  replace (Z.to_nat (hi - lo)) with (S (Z.to_nat (hi - (lo + 1)))) by lia.
  cbn [seq map]. f_equal; [lia |].
  rewrite <- seq_shift, map_map.
  apply map_ext. intros k. lia.
Qed.

Lemma positions_length (lo hi : Z) :
  lo <= hi -> Z.of_nat (List.length (positions lo hi)) = hi - lo.
Proof.
  intros H. unfold positions. rewrite length_map, length_seq. lia.
Qed.

Lemma range_positions (n : Z) : range n = positions 0 n.
Proof.
  unfold range, positions. rewrite Z.sub_0_r. apply map_ext. intros k. lia.
Qed.

Lemma num_matches_nil (p : char_ptr) (t : char) (lo hi : Z) :
  hi <= lo -> num_matches p t lo hi = 0.
Proof.
  intros H. unfold num_matches. rewrite positions_nil by exact H. reflexivity.
Qed.

Lemma num_matches_cons (p : char_ptr) (t : char) (lo hi : Z) :
  lo < hi ->
  num_matches p t lo hi =
  (if deref p lo =? t then 1 else 0) + num_matches p t (lo + 1) hi.
Proof.
  intros H. unfold num_matches. rewrite positions_cons by exact H.
  cbn [filter]. destruct (deref p lo =? t); cbn [List.length]; lia.
Qed.

Lemma num_matches_bounds (p : char_ptr) (t : char) (lo hi : Z) :
  0 <= num_matches p t lo hi <= Z.max 0 (hi - lo).
Proof.
  unfold num_matches.
  pose proof (filter_length_le (fun i => deref p i =? t) (positions lo hi)) as F.
  destruct (Z_le_gt_dec lo hi) as [L | G].
  - pose proof (positions_length lo hi L). lia.
  - rewrite positions_nil in * by lia. cbn in *. lia.
Qed.

(** Two memories that agree on [[lo, hi)] have the same matches there. *)
Lemma num_matches_ext (p q : char_ptr) (t : char) (lo hi : Z) :
  (forall i, lo <= i < hi -> deref p i = deref q i) ->
  num_matches p t lo hi = num_matches q t lo hi.
Proof.
  remember (Z.to_nat (hi - lo)) as n eqn:En.
  revert lo En. induction n as [| n IH]; intros lo En Hpq.
  - rewrite !num_matches_nil by lia. reflexivity.
  - rewrite (num_matches_cons p t lo hi), (num_matches_cons q t lo hi) by lia.
    rewrite Hpq by lia. rewrite (IH (lo + 1)); [reflexivity | lia |].
    intros i Hi. apply Hpq. lia.
Qed.

(** ** The two reads *)

Lemma set_pos_same (br : ByteReader) : set_pos br (pos br) = br.
Proof. destruct br; reflexivity. Qed.

(** Away from [LONG_MAX], [read_byte] returns [data[pos]] and adds one to
    [pos], whatever [length] is. *)
Lemma read_byte_eq (br : ByteReader) :
  in_long (pos br) -> pos br < LONG_MAX ->
  read_byte br = (deref (data br) (pos br), set_pos br (pos br + 1)).
Proof.
  intros Hp Hmax. unfold read_byte.
  rewrite wrap_long_id by (unfold in_long, LONG_MAX in *; lia).
  reflexivity.
Qed.

(** As long as [pos + num] is a long, [read_bytes] returns [data + pos] and
    adds [num] to [pos], whatever [length] is. *)
Lemma read_bytes_eq (br : ByteReader) (num : Z) :
  in_long (pos br) -> in_long (pos br + num) ->
  read_bytes br num = (ptr_add (data br) (pos br), set_pos br (pos br + num)).
Proof.
  intros Hp Hn. unfold read_bytes. cbn [set_pos data pos].
  rewrite (wrap_long_id (pos br + num)) by exact Hn.
  replace (pos br + num - num) with (pos br) by lia.
  rewrite wrap_long_id by exact Hp.
  reflexivity.
Qed.

Lemma deref_ptr_add (p : char_ptr) (k i : Z) :
  deref (ptr_add p k) i = deref p (k + i).
Proof. unfold deref, ptr_add. cbn. f_equal. lia. Qed.

(** ** The cursor loops *)

Section ReaderLoop.

(** A loop body that reads the char at [pos], moves [pos] by one and
    counts the char when it is ['l']. *)
Variable body : reader_state -> reader_state.

Hypothesis body_step : forall br count,
  well_typed br -> pos br < length br ->
  body (br, count) =
  (set_pos br (pos br + 1),
   if deref (data br) (pos br) =? b_l then wrap_int (count + 1) else count).

Lemma reader_loop_run (n : nat) : forall br count fuel,
  well_typed br -> in_int count ->
  Z.to_nat (length br - pos br) = n -> (n < fuel)%nat ->
  while reader_cond body fuel (br, count) =
  Some (set_pos br (Z.max (pos br) (length br)),
        wrap_int (count + num_matches (data br) b_l (pos br) (length br))).
Proof.
  induction n as [| n IH]; intros br count fuel Hwt Hc Hn Hfuel;
    (destruct fuel as [| fuel]; [lia |]); cbn [while];
    unfold reader_cond at 1; cbn [fst].
  - replace (pos br <? length br) with false by (symmetry; apply Z.ltb_ge; lia).
    rewrite num_matches_nil by lia.
    rewrite Z.add_0_r, (wrap_int_id count Hc).
    replace (Z.max (pos br) (length br)) with (pos br) by lia.
    rewrite set_pos_same. reflexivity.
  - replace (pos br <? length br) with true by (symmetry; apply Z.ltb_lt; lia).
    rewrite body_step by (auto; lia).
    destruct Hwt as [Hp Hl].
    rewrite IH; cbn [set_pos data pos length].
    + rewrite (num_matches_cons (data br) b_l (pos br)) by lia.
      replace (Z.max (pos br + 1) (length br))
        with (Z.max (pos br) (length br)) by lia.
      destruct (deref (data br) (pos br) =? b_l).
      * rewrite wrap_int_step. reflexivity.
      * reflexivity.
    + split; cbn; unfold in_long in *; lia.
    + destruct (deref (data br) (pos br) =? b_l);
        [apply wrap_int_in_int | exact Hc].
    + lia.
    + lia.
Qed.

End ReaderLoop.

Lemma count_ls_bytereader_body_step (br : ByteReader) (count : Z) :
  well_typed br -> pos br < length br ->
  count_ls_bytereader_body (br, count) =
  (set_pos br (pos br + 1),
   if deref (data br) (pos br) =? b_l then wrap_int (count + 1) else count).
Proof.
  intros [Hp Hl] Hlt. unfold count_ls_bytereader_body.
  rewrite read_bytes_eq by (unfold in_long in *; lia).
  rewrite deref_ptr_add, Z.add_0_r. reflexivity.
Qed.

Lemma count_ls_bytereader_single_body_step (br : ByteReader) (count : Z) :
  well_typed br -> pos br < length br ->
  count_ls_bytereader_single_body (br, count) =
  (set_pos br (pos br + 1),
   if deref (data br) (pos br) =? b_l then wrap_int (count + 1) else count).
Proof.
  intros [Hp Hl] Hlt. unfold count_ls_bytereader_single_body.
  rewrite read_byte_eq by (unfold in_long in *; lia).
  reflexivity.
Qed.

Lemma in_int_0 : in_int 0.
Proof. unfold in_int, INT_MAX. lia. Qed.

(** Both loops, given fuel for the bytes left, end on [length] with the
    count of ['l'] as a C int. *)
Lemma count_ls_bytereader_loop_eq (fuel : nat) (br : ByteReader) :
  well_typed br -> (Z.to_nat (length br - pos br) < fuel)%nat ->
  count_ls_bytereader_loop fuel br =
  Some (set_pos br (Z.max (pos br) (length br)),
        wrap_int (num_matches (data br) b_l (pos br) (length br))).
Proof.
  intros Hwt Hfuel. unfold count_ls_bytereader_loop.
  rewrite (reader_loop_run _ count_ls_bytereader_body_step
             (Z.to_nat (length br - pos br)));
    [reflexivity | exact Hwt | exact in_int_0 | reflexivity | lia].
Qed.

Lemma count_ls_bytereader_single_loop_eq (fuel : nat) (br : ByteReader) :
  well_typed br -> (Z.to_nat (length br - pos br) < fuel)%nat ->
  count_ls_bytereader_single_loop fuel br =
  Some (set_pos br (Z.max (pos br) (length br)),
        wrap_int (num_matches (data br) b_l (pos br) (length br))).
Proof.
  intros Hwt Hfuel. unfold count_ls_bytereader_single_loop.
  rewrite (reader_loop_run _ count_ls_bytereader_single_body_step
             (Z.to_nat (length br - pos br)));
    [reflexivity | exact Hwt | exact in_int_0 | reflexivity | lia].
Qed.

(** ** The indexed scan *)

Lemma count_ls_cdef_fold (s : char_ptr) (hi : Z) (n : nat) :
  forall lo count,
  Z.to_nat (hi - lo) = n -> in_int count ->
  fold_left
    (fun count i => if deref s i =? b_l then wrap_int (count + 1) else count)
    (positions lo hi) count =
  wrap_int (count + num_matches s b_l lo hi).
Proof.
  induction n as [| n IH]; intros lo count Hn Hc.
  - rewrite positions_nil, num_matches_nil by lia.
    cbn [fold_left]. rewrite Z.add_0_r, wrap_int_id; auto.
  - rewrite positions_cons, num_matches_cons by lia.
    cbn [fold_left]. rewrite IH by
      (try lia; destruct (deref s lo =? b_l); auto using wrap_int_in_int).
    destruct (deref s lo =? b_l).
    + apply wrap_int_step.
    + reflexivity.
Qed.

(** The scan cannot overflow its count: [s_len] is itself an int. *)
Lemma count_ls_cdef_eq (s : char_ptr) (s_len : Z) :
  in_int s_len -> count_ls_cdef s s_len = num_matches s b_l 0 s_len.
Proof.
  intros Hl. unfold count_ls_cdef. rewrite range_positions.
  rewrite (count_ls_cdef_fold s s_len (Z.to_nat (s_len - 0)))
    by auto using in_int_0.
  rewrite Z.add_0_l. apply wrap_int_id.
  pose proof (num_matches_bounds s b_l 0 s_len).
  unfold in_int, INT_MAX in *. lia.
Qed.

(** ** Bytes objects in memory *)

Lemma char_of_byte_is_l (b : byte) :
  (char_of_byte b =? b_l) = Byte.eqb x6c b.
Proof. destruct b; vm_compute; reflexivity. Qed.

Lemma uchar_of_char_is_l (b : byte) :
  (wrap_uchar (char_of_byte b) =? b_l) = Byte.eqb x6c b.
Proof. destruct b; vm_compute; reflexivity. Qed.

Lemma byte_of_char_of_byte (b : byte) : byte_of_char (char_of_byte b) = b.
Proof. destruct b; vm_compute; reflexivity. Qed.

Lemma len_nonneg (s : bytes) : 0 <= len s.
Proof. unfold len. lia. Qed.

Lemma count_l_bounds (s : bytes) : 0 <= count_l s <= len s.
Proof.
  unfold count_l, len.
  pose proof (filter_length_le (Byte.eqb x6c) s). lia.
Qed.

Lemma count_l_cons (b : byte) (s : bytes) :
  count_l (b :: s) = (if Byte.eqb x6c b then 1 else 0) + count_l s.
Proof.
  unfold count_l. cbn [filter].
  destruct (Byte.eqb x6c b); cbn [List.length]; lia.
Qed.

(** The chars of a bytes object read through any pointer that shows them
    from [lo] on. *)
Lemma num_matches_bytes (p : char_ptr) (l : bytes) : forall lo,
  (forall k, (k < List.length l)%nat ->
             deref p (lo + Z.of_nat k) = char_of_byte (nth k l x00)) ->
  num_matches p b_l lo (lo + len l) = count_l l.
Proof.
  induction l as [| b l IH]; intros lo Hp.
  - rewrite num_matches_nil by (unfold len; cbn; lia). reflexivity.
  - rewrite num_matches_cons by (unfold len; cbn [List.length]; lia).
    rewrite count_l_cons.
    specialize (Hp O (Nat.lt_0_succ _)) as H0.
    rewrite Z.add_0_r in H0. cbn [nth] in H0.
    rewrite H0, char_of_byte_is_l. f_equal.
    replace (lo + len (b :: l)) with (lo + 1 + len l)
      by (unfold len; cbn [List.length]; lia).
    apply IH. intros k Hk.
    replace (lo + 1 + Z.of_nat k) with (lo + Z.of_nat (S k)) by lia.
    rewrite Hp by (cbn [List.length]; lia). reflexivity.
Qed.

Section BytesInMemory.

Variable heap : Z -> char.

Lemma deref_bytes (s : bytes) (i : Z) :
  0 <= i < len s ->
  deref (bytes_as_ptr heap s) i = char_of_byte (nth (Z.to_nat i) s x00).
Proof.
  intros Hi. unfold deref, bytes_as_ptr, bytes_mem. cbn [mem ofs].
  rewrite Z.add_0_l.
  replace (0 <=? i) with true by (symmetry; apply Z.leb_le; lia).
  replace (i <? len s) with true by (symmetry; apply Z.ltb_lt; lia).
  reflexivity.
Qed.

(** The byte CPython keeps after the last one. *)
Lemma deref_bytes_nul (s : bytes) : deref (bytes_as_ptr heap s) (len s) = 0.
Proof.
  unfold deref, bytes_as_ptr, bytes_mem. cbn [mem ofs].
  rewrite Z.add_0_l.
  replace (len s <? len s) with false by (symmetry; apply Z.ltb_ge; lia).
  rewrite andb_false_r, Z.eqb_refl. reflexivity.
Qed.

(** A scan of the first [n] chars of [s] sees the ['l'] of that prefix. *)
Lemma num_matches_prefix (s : bytes) (n : Z) :
  n <= len s ->
  num_matches (bytes_as_ptr heap s) b_l 0 n = count_l (firstn (Z.to_nat n) s).
Proof.
  intros Hn. destruct (Z_le_gt_dec n 0) as [Hle | Hgt].
  - rewrite num_matches_nil by lia.
    replace (Z.to_nat n) with O by lia. reflexivity.
  - assert (Hlen : len (firstn (Z.to_nat n) s) = n).
    { unfold len in *. rewrite length_firstn. lia. }
    rewrite <- Hlen at 1. rewrite <- (Z.add_0_l (len _)).
    apply num_matches_bytes. intros k Hk.
    rewrite length_firstn in Hk.
    rewrite Z.add_0_l, deref_bytes by (unfold len; lia).
    rewrite Nat2Z.id, nth_firstn.
    replace (k <? Z.to_nat n)%nat with true
      by (symmetry; apply Nat.ltb_lt; lia).
    reflexivity.
Qed.

Lemma num_matches_whole (s : bytes) :
  num_matches (bytes_as_ptr heap s) b_l 0 (len s) = count_l s.
Proof.
  rewrite num_matches_prefix by lia.
  unfold len. rewrite Nat2Z.id, firstn_all. reflexivity.
Qed.

Lemma well_typed_new (s : bytes) : well_typed (ByteReader_new heap s).
Proof.
  split; cbn; [unfold in_long, LONG_MAX; lia | apply wrap_long_in_long].
Qed.

End BytesInMemory.

Lemma seen_int_all (s : bytes) : len s <= INT_MAX -> seen_int s = s.
Proof.
  intros H. unfold seen_int.
  rewrite wrap_int_id by (pose proof (len_nonneg s); unfold in_int; lia).
  unfold len. rewrite Nat2Z.id. apply firstn_all.
Qed.

Lemma seen_long_all (s : bytes) : len s <= LONG_MAX -> seen_long s = s.
Proof.
  intros H. unfold seen_long.
  rewrite wrap_long_id by (pose proof (len_nonneg s); unfold in_long; lia).
  unfold len. rewrite Nat2Z.id. apply firstn_all.
Qed.

Lemma wrap_int_len_le (s : bytes) : wrap_int (len s) <= len s.
Proof. apply swrap_le; [lia | apply len_nonneg]. Qed.

Lemma wrap_long_len_le (s : bytes) : wrap_long (len s) <= len s.
Proof. apply swrap_le; [lia | apply len_nonneg]. Qed.

(** ** The entry points, computed *)

Section EntryPointResults.

Variable heap : Z -> char.

Lemma py_count_ls_cdef_eq (s : bytes) :
  py_count_ls_cdef heap s = count_l (seen_int s).
Proof.
  unfold py_count_ls_cdef.
  rewrite count_ls_cdef_eq by apply wrap_int_in_int.
  apply num_matches_prefix, wrap_int_len_le.
Qed.

Lemma py_count_ls_bytereader_eq (fuel : nat) (s : bytes) :
  (Z.to_nat (wrap_long (len s)) < fuel)%nat ->
  py_count_ls_bytereader heap fuel s = Some (wrap_int (count_l (seen_long s))).
Proof.
  intros Hfuel. unfold py_count_ls_bytereader, count_ls_bytereader.
  rewrite count_ls_bytereader_loop_eq;
    [| apply well_typed_new | cbn [ByteReader_new pos length]; lia].
  cbn [option_map snd ByteReader_new data pos length].
  rewrite num_matches_prefix by apply wrap_long_len_le. reflexivity.
Qed.

Lemma py_count_ls_bytereader_single_eq (fuel : nat) (s : bytes) :
  (Z.to_nat (wrap_long (len s)) < fuel)%nat ->
  py_count_ls_bytereader_single heap fuel s =
  Some (wrap_int (count_l (seen_long s))).
Proof.
  intros Hfuel.
  unfold py_count_ls_bytereader_single, count_ls_bytereader_single.
  rewrite count_ls_bytereader_single_loop_eq;
    [| apply well_typed_new | cbn [ByteReader_new pos length]; lia].
  cbn [option_map snd ByteReader_new data pos length].
  rewrite num_matches_prefix by apply wrap_long_len_le. reflexivity.
Qed.

End EntryPointResults.

(** ** The stream loop *)

Lemma skipn_all_nil (s : bytes) (p : nat) :
  (List.length s <= p)%nat -> skipn p s = [].
Proof. intros H. apply skipn_all2. exact H. Qed.

(** Entered after a [read(1)] at position [p], the loop ends at the end of
    the stream, having counted the ['l'] from [p] on. *)
Lemma count_ls_bytesio_loop_run (s : bytes) (n : nat) :
  forall p count fuel,
  (List.length s - p = n)%nat -> (n < fuel)%nat -> in_int count ->
  let (c, fo) := BytesIO_read {| getvalue := s; tell := p |} 1 in
  count_ls_bytesio_loop fuel fo c count =
  Some ({| getvalue := s; tell := Nat.max p (List.length s) |},
        wrap_int (count + count_l (skipn p s))).
Proof.
  induction n as [| n IH]; intros p count fuel Hn Hfuel Hc;
    (destruct fuel as [| fuel]; [lia |]);
    unfold BytesIO_read; cbn [getvalue tell].
  - rewrite skipn_all_nil by lia. cbn [firstn count_ls_bytesio_loop List.length].
    unfold count_l. cbn [filter List.length Z.of_nat].
    rewrite Z.add_0_r, wrap_int_id, Nat.add_0_r by exact Hc.
    replace (Nat.max p (List.length s)) with p by lia. reflexivity.
  - destruct (skipn p s) as [| b rest] eqn:Hskip.
    { apply (f_equal (@List.length byte)) in Hskip.
      rewrite length_skipn in Hskip. cbn in Hskip. lia. }
    assert (Hrest : skipn (S p) s = rest).
    { replace (S p) with (1 + p)%nat by lia.
      rewrite <- skipn_skipn, Hskip. reflexivity. }
    cbn [firstn List.length count_ls_bytesio_loop].
    rewrite uchar_of_char_is_l.
    specialize (IH (S p)
      (if Byte.eqb x6c b then wrap_int (count + 1) else count) fuel).
    unfold BytesIO_read in IH. cbn [getvalue tell] in IH.
    change (@read BytesIO BytesIO_Readable) with BytesIO_read.
    unfold BytesIO_read. cbn [getvalue tell].
    replace (p + 1)%nat with (S p) by lia.
    rewrite IH;
      [| lia | lia
       | destruct (Byte.eqb x6c b); [apply wrap_int_in_int | exact Hc]].
    rewrite Hrest, count_l_cons.
    replace (Nat.max (S p) (List.length s))
      with (Nat.max p (List.length s)) by lia.
    destruct (Byte.eqb x6c b).
    + rewrite wrap_int_step. reflexivity.
    + reflexivity.
Qed.

Lemma py_count_ls_bytesio_eq (fuel : nat) (s : bytes) :
  (List.length s < fuel)%nat ->
  py_count_ls_bytesio fuel s = Some (wrap_int (count_l s)).
Proof.
  intros Hfuel. unfold py_count_ls_bytesio, count_ls_bytesio.
  pose proof (count_ls_bytesio_loop_run s (List.length s - 0) 0 0 fuel
                eq_refl ltac:(lia) in_int_0) as H.
  change (@read BytesIO BytesIO_Readable) with BytesIO_read.
  unfold BytesIO_new.
  destruct (BytesIO_read {| getvalue := s; tell := 0 |} 1) as [c fo].
  rewrite H. reflexivity.
Qed.

(** * The claims *)

Ltac typed :=
  unfold well_typed, in_long, in_int, LONG_MAX, INT_MAX in *; cbn in *; lia.

(** ** Counting *)




(** The scenario of the specification: three ['l'] in "hello world". *)
Example count_ls_hello_world :
  py_count_ls_cdef no_heap hello_world = 3 /\
  py_count_ls_bytereader no_heap 12 hello_world = Some 3 /\
  py_count_ls_bytereader_single no_heap 12 hello_world = Some 3 /\
  py_count_ls_bytesio 12 hello_world = Some 3.
Proof. vm_compute. repeat split. Qed.

(** C7, as the code has it: on a cursor with [pos <= length], both
    cursor loops return once they have fuel for the bytes left; each turn
    of either loop moves [pos] forward by exactly one, so the bytes left,
    which are never negative, decrease, and the loop ends with
    [pos == length] in the cursor it works on.  That cursor is the
    function's own copy of the struct: the caller's cursor is as it was
    before the call. *)
Theorem count_loops_terminate (br : ByteReader) (fuel : nat) :
  well_typed br -> pos br <= length br ->
  length br - pos br < Z.of_nat fuel ->
  (exists count,
     count_ls_bytereader_loop fuel br = Some (set_pos br (length br), count) /\
     count_ls_bytereader fuel br = Some count /\
     call_count_ls_bytereader fuel br = Some (count, br)) /\
  (exists count,
     count_ls_bytereader_single_loop fuel br
       = Some (set_pos br (length br), count) /\
     count_ls_bytereader_single fuel br = Some count /\
     call_count_ls_bytereader_single fuel br = Some (count, br)) /\
  (forall cur count,
     well_typed cur -> reader_cond (cur, count) = true ->
     pos (fst (count_ls_bytereader_body (cur, count))) = pos cur + 1 /\
     pos (fst (count_ls_bytereader_single_body (cur, count))) = pos cur + 1 /\
     0 <= length cur - (pos cur + 1) < length cur - pos cur).
Proof.
  intros Hwt Hle Hfuel.
  assert (Hf : (Z.to_nat (length br - pos br) < fuel)%nat) by lia.
  unfold call_count_ls_bytereader, call_count_ls_bytereader_single.
  unfold count_ls_bytereader, count_ls_bytereader_single.
  rewrite count_ls_bytereader_loop_eq, count_ls_bytereader_single_loop_eq
    by assumption.
  replace (Z.max (pos br) (length br)) with (length br) by lia.
  split; [| split].
  - eexists. repeat split.
  - eexists. repeat split.
  - intros cur count Hcur Hcond.
    unfold reader_cond in Hcond. cbn [fst] in Hcond.
    apply Z.ltb_lt in Hcond.
    rewrite count_ls_bytereader_body_step,
      count_ls_bytereader_single_body_step by assumption.
    cbn [fst set_pos pos]. lia.
Qed.

Lemma count_loops_terminate_hello :
  (exists count,
     count_ls_bytereader_loop 12 cursor_hello
       = Some (set_pos cursor_hello (length cursor_hello), count) /\
     count_ls_bytereader 12 cursor_hello = Some count /\
     call_count_ls_bytereader 12 cursor_hello = Some (count, cursor_hello)) /\
  (exists count,
     count_ls_bytereader_single_loop 12 cursor_hello
       = Some (set_pos cursor_hello (length cursor_hello), count) /\
     count_ls_bytereader_single 12 cursor_hello = Some count /\
     call_count_ls_bytereader_single 12 cursor_hello
       = Some (count, cursor_hello)) /\
  (forall cur count,
     well_typed cur -> reader_cond (cur, count) = true ->
     pos (fst (count_ls_bytereader_body (cur, count))) = pos cur + 1 /\
     pos (fst (count_ls_bytereader_single_body (cur, count))) = pos cur + 1 /\
     0 <= length cur - (pos cur + 1) < length cur - pos cur).
Proof.
  apply (count_loops_terminate cursor_hello 12).
  - typed.
  - cbn. lia.
  - cbn. lia.
Defined.

(** C7 as stated fails for the caller's cursor: after either count over
    a fresh cursor on "hello world" the caller still holds the cursor at
    position 0 with 11 bytes remaining, not at [pos == length]. *)
Lemma count_leaves_caller_cursor :
  pos cursor_hello <= length cursor_hello /\
  call_count_ls_bytereader 12 cursor_hello = Some (3, cursor_hello) /\
  call_count_ls_bytereader_single 12 cursor_hello = Some (3, cursor_hello) /\
  pos cursor_hello = 0 /\ length cursor_hello = 11 /\
  Spec.remaining cursor_hello = 11.
Proof. repeat split. cbn. lia. Qed.

(** ** Reading *)

(** C5: for [0 <= n] and [pos + n <= length], [read_bytes(br, n)] returns
    the pointer [data + pos] into the cursor's own memory, through which
    the [n] chars at the positions [[pos, pos + n)] are read, and leaves
    [pos + n] in [pos]; for [n = 0] the view is empty and the cursor is
    unchanged. *)
Theorem read_bytes_view (br : ByteReader) (n : Z) :
  well_typed br -> 0 <= n -> pos br + n <= length br ->
  read_bytes br n = (ptr_add (data br) (pos br), set_pos br (pos br + n)) /\
  mem (fst (read_bytes br n)) = mem (data br) /\
  view (fst (read_bytes br n)) n
    = map (deref (data br)) (positions (pos br) (pos br + n)) /\
  (n = 0 ->
   view (fst (read_bytes br n)) n = [] /\ snd (read_bytes br n) = br).
Proof.
  intros [Hp Hl] Hn Hle.
  assert (E : read_bytes br n
              = (ptr_add (data br) (pos br), set_pos br (pos br + n))).
  { apply read_bytes_eq; unfold in_long in *; lia. }
  rewrite E. cbn [fst snd]. repeat split.
  - unfold view, range, positions. rewrite !map_map.
    replace (pos br + n - pos br) with n by lia.
    apply map_ext. intros k. apply deref_ptr_add.
  - subst n. reflexivity.
  - subst n. rewrite Z.add_0_r. apply set_pos_same.
Qed.

Lemma read_bytes_view_hello :
  read_bytes cursor_hello 5
    = (ptr_add (data cursor_hello) (pos cursor_hello),
       set_pos cursor_hello (pos cursor_hello + 5)) /\
  mem (fst (read_bytes cursor_hello 5)) = mem (data cursor_hello) /\
  view (fst (read_bytes cursor_hello 5)) 5
    = map (deref (data cursor_hello))
          (positions (pos cursor_hello) (pos cursor_hello + 5)) /\
  (5 = 0 ->
   view (fst (read_bytes cursor_hello 5)) 5 = [] /\
   snd (read_bytes cursor_hello 5) = cursor_hello).
Proof.
  apply (read_bytes_view cursor_hello 5).
  - typed.
  - lia.
  - cbn. lia.
Defined.

(** The first five chars of "hello world" through the view. *)
Example read_bytes_hello :
  view (fst (read_bytes cursor_hello 5)) 5 = [104; 101; 108; 108; 111] /\
  pos (snd (read_bytes cursor_hello 5)) = 5.
Proof. vm_compute. split; reflexivity. Qed.

Lemma skipn_nth_cons (s : bytes) : forall p,
  (p < List.length s)%nat -> skipn p s = nth p s x00 :: skipn (S p) s.
Proof.
  induction s as [| b s IH]; intros p Hp; [cbn in Hp; lia |].
  destruct p as [| p]; [reflexivity |].
  cbn [skipn nth]. apply IH. cbn in Hp. lia.
Qed.

Section ReadingBytes.

Variable heap : Z -> char.
Variable s : bytes.
Hypothesis s_fits : len s <= LONG_MAX.

Let br0 : ByteReader := ByteReader_new heap s.

Lemma length_new : length br0 = len s.
Proof.
  cbn. apply wrap_long_id. pose proof (len_nonneg s). unfold in_long. lia.
Qed.

(** One [read_byte] inside the buffer. *)
Lemma read_byte_in_bytes (p : nat) :
  (p < List.length s)%nat ->
  read_byte (set_pos br0 (Z.of_nat p))
  = (char_of_byte (nth p s x00), set_pos br0 (Z.of_nat (S p))).
Proof.
  intros Hp. unfold len, LONG_MAX in s_fits.
  rewrite read_byte_eq; cbn [set_pos data pos length br0 ByteReader_new];
    [| unfold in_long, LONG_MAX; lia | unfold LONG_MAX; lia].
  rewrite deref_bytes by (unfold len; lia).
  rewrite Nat2Z.id.
  change (set_pos (set_pos br0 (Z.of_nat p)) (Z.of_nat p + 1))
    with (set_pos br0 (Z.of_nat p + 1)).
  replace (Z.of_nat p + 1) with (Z.of_nat (S p)) by lia. reflexivity.
Qed.

Lemma read_byte_n_in_bytes (k : nat) : forall p,
  (p + k <= List.length s)%nat ->
  read_byte_n k (set_pos br0 (Z.of_nat p))
  = (map char_of_byte (firstn k (skipn p s)),
     set_pos br0 (Z.of_nat (p + k))).
Proof.
  induction k as [| k IH]; intros p Hk; cbn [read_byte_n].
  - rewrite Nat.add_0_r. reflexivity.
  - rewrite read_byte_in_bytes, IH by lia.
    rewrite (skipn_nth_cons s p) by lia. cbn [firstn map].
    do 2 f_equal. lia.
Qed.

Lemma read_pass_in_bytes (n : nat) : forall p acc fuel,
  (List.length s - p = n)%nat -> (p <= List.length s)%nat ->
  (n < fuel)%nat ->
  while (fun st => pos (fst st) <? length (fst st))
        (fun st : ByteReader * list char =>
           let (c, br) := read_byte (fst st) in (br, snd st ++ [c]))
        fuel (set_pos br0 (Z.of_nat p), acc)
  = Some (set_pos br0 (len s), acc ++ map char_of_byte (skipn p s)).
Proof.
  induction n as [| n IH]; intros p acc fuel Hn Hp Hfuel;
    (destruct fuel as [| fuel]; [lia |]);
    cbn [while fst snd set_pos pos length]; fold br0; rewrite length_new.
  - replace (Z.of_nat p <? len s) with false
      by (symmetry; apply Z.ltb_ge; unfold len; lia).
    rewrite skipn_all_nil by lia. cbn [map]. rewrite app_nil_r.
    do 3 f_equal. unfold len. lia.
  - replace (Z.of_nat p <? len s) with true
      by (symmetry; apply Z.ltb_lt; unfold len; lia).
    change {| data := data br0; pos := Z.of_nat p; length := length br0 |}
      with (set_pos br0 (Z.of_nat p)).
    rewrite read_byte_in_bytes by lia.
    rewrite IH by lia.
    rewrite (skipn_nth_cons s p) by lia. cbn [map].
    rewrite <- app_assoc. reflexivity.
Qed.

End ReadingBytes.

(** C2, as the code has it: [read_byte] makes no test and raises nothing.
    Whatever [length] is, a call returns [data[pos]] and adds one to [pos].
    From a fresh cursor over [s], [k <= size(s)] calls return the first [k]
    bytes of [s], in order, and leave [pos = k]; the call after the last
    byte returns as well, with the NUL stored after the bytes, and leaves
    [pos = size(s) + 1]. *)
Theorem read_byte_unchecked (heap : Z -> char) (s : bytes) :
  len s < LONG_MAX ->
  (forall br, well_typed br -> pos br < LONG_MAX ->
     read_byte br = (deref (data br) (pos br), set_pos br (pos br + 1))) /\
  (forall k, (k <= List.length s)%nat ->
     read_byte_n k (ByteReader_new heap s)
     = (map char_of_byte (firstn k s),
        set_pos (ByteReader_new heap s) (Z.of_nat k))) /\
  read_byte (set_pos (ByteReader_new heap s) (len s))
  = (0, set_pos (ByteReader_new heap s) (len s + 1)).
Proof.
  intros Hs. split; [| split].
  - intros br [Hp _] Hmax. apply read_byte_eq; assumption.
  - intros k Hk.
    apply (read_byte_n_in_bytes heap s ltac:(lia) k O). lia.
  - pose proof (len_nonneg s).
    rewrite read_byte_eq; cbn [set_pos data pos length ByteReader_new];
      [| unfold in_long, LONG_MAX in *; lia | lia].
    rewrite deref_bytes_nul. reflexivity.
Qed.

Lemma read_byte_unchecked_hello :
  (forall br, well_typed br -> pos br < LONG_MAX ->
     read_byte br = (deref (data br) (pos br), set_pos br (pos br + 1))) /\
  (forall k, (k <= List.length hello_world)%nat ->
     read_byte_n k (ByteReader_new no_heap hello_world)
     = (map char_of_byte (firstn k hello_world),
        set_pos (ByteReader_new no_heap hello_world) (Z.of_nat k))) /\
  read_byte (set_pos (ByteReader_new no_heap hello_world) (len hello_world))
  = (0, set_pos (ByteReader_new no_heap hello_world) (len hello_world + 1)).
Proof.
  apply (read_byte_unchecked no_heap hello_world).
  unfold LONG_MAX. cbn. lia.
Defined.

(** C2 as stated fails on the empty buffer: no byte remains, the
    specification's [read_byte] raises [OutOfBounds], and the code's
    returns the char 0 and a cursor with [pos = 1]. *)
Lemma read_byte_past_end_returns :
  length cursor_empty <= pos cursor_empty /\
  Spec.read_byte cursor_empty = Spec.Raises Spec.OutOfBounds /\
  read_byte cursor_empty = (0, set_pos cursor_empty 1).
Proof. repeat split. cbn. lia. Qed.

(** C8: a full pass of [read_byte] over a fresh cursor on [s] returns the
    chars of [s] in order, and these chars are the bytes of [s]. *)
Theorem read_pass_reconstructs (heap : Z -> char) (s : bytes) (fuel : nat) :
  len s <= LONG_MAX -> len s < Z.of_nat fuel ->
  exists cs,
    read_pass fuel (ByteReader_new heap s)
    = Some (set_pos (ByteReader_new heap s) (len s), cs) /\
    map byte_of_char cs = s.
Proof.
  intros Hs Hfuel. exists (map char_of_byte s). split.
  - unfold read_pass.
    pose proof (read_pass_in_bytes heap s Hs (List.length s - 0) O [] fuel
                  eq_refl ltac:(lia) ltac:(unfold len in Hfuel; lia)) as H.
    exact H.
  - rewrite map_map. rewrite <- (map_id s) at 2.
    apply map_ext, byte_of_char_of_byte.
Qed.

Lemma read_pass_reconstructs_hello :
  exists cs,
    read_pass 12 (ByteReader_new no_heap hello_world)
    = Some (set_pos (ByteReader_new no_heap hello_world) (len hello_world),
            cs) /\
    map byte_of_char cs = hello_world.
Proof.
  apply (read_pass_reconstructs no_heap hello_world 12).
  - unfold LONG_MAX. cbn. lia.
  - cbn. lia.
Defined.

(** ** The cursor invariant *)

Lemma run_op_in_bounds (o : op) (br : ByteReader) :
  well_typed br -> cursor_inv br -> in_bounds o br = true ->
  well_typed (run_op o br) /\ cursor_inv (run_op o br) /\
  length (run_op o br) = length br.
Proof.
  intros [Hp Hl] Hinv Hb. unfold cursor_inv in *.
  destruct o as [| num]; cbn [in_bounds run_op] in *.
  - apply Z.ltb_lt in Hb.
    rewrite read_byte_eq by (unfold in_long in *; lia).
    cbn [snd]. unfold well_typed, in_long in *. cbn [set_pos pos length]. lia.
  - apply andb_true_iff in Hb. destruct Hb as [H0 Hle].
    apply Z.leb_le in H0. apply Z.leb_le in Hle.
    rewrite read_bytes_eq by (unfold in_long in *; lia).
    cbn [snd]. unfold well_typed, in_long in *. cbn [set_pos pos length]. lia.
Qed.

Lemma trace_in_bounds (ops : list op) : forall br,
  well_typed br -> cursor_inv br -> all_in_bounds ops br = true ->
  Forall cursor_inv (trace ops br).
Proof.
  induction ops as [| o ops IH]; intros br Hwt Hinv Hall; cbn [trace].
  - constructor.
  - cbn [all_in_bounds] in Hall. apply andb_true_iff in Hall.
    destruct Hall as [Ho Hrest].
    destruct (run_op_in_bounds o br Hwt Hinv Ho) as (Hwt' & Hinv' & _).
    constructor; [exact Hinv' | apply IH; assumption].
Qed.

(** C3, as the code has it: the reads make no test, so [0 <= pos <= length]
    is kept by the reads the caller has bounded ([read_byte] with
    [pos < length], [read_bytes(n)] with [0 <= n] and [pos + n <= length]).
    It holds after each operation of any sequence of such reads, and in the
    cursor either counting loop ends on, the loops testing [pos < length]
    before each read. *)
Theorem bounded_reads_keep_invariant (br : ByteReader) :
  well_typed br -> cursor_inv br ->
  (forall ops, all_in_bounds ops br = true ->
     Forall cursor_inv (trace ops br)) /\
  (forall fuel, length br - pos br < Z.of_nat fuel ->
     exists br1 c1 br2 c2,
       count_ls_bytereader_loop fuel br = Some (br1, c1) /\
       count_ls_bytereader_single_loop fuel br = Some (br2, c2) /\
       cursor_inv br1 /\ cursor_inv br2).
Proof.
  intros Hwt Hinv. split.
  - intros ops Hall. apply trace_in_bounds; assumption.
  - intros fuel Hfuel. unfold cursor_inv in Hinv.
    rewrite count_ls_bytereader_loop_eq, count_ls_bytereader_single_loop_eq
      by (try assumption; lia).
    do 4 eexists. repeat split; unfold cursor_inv; cbn [set_pos pos length]; lia.
Qed.

Lemma bounded_reads_keep_invariant_hello :
  (forall ops, all_in_bounds ops cursor_hello = true ->
     Forall cursor_inv (trace ops cursor_hello)) /\
  (forall fuel, length cursor_hello - pos cursor_hello < Z.of_nat fuel ->
     exists br1 c1 br2 c2,
       count_ls_bytereader_loop fuel cursor_hello = Some (br1, c1) /\
       count_ls_bytereader_single_loop fuel cursor_hello = Some (br2, c2) /\
       cursor_inv br1 /\ cursor_inv br2).
Proof.
  apply (bounded_reads_keep_invariant cursor_hello).
  - typed.
  - unfold cursor_inv. cbn. lia.
Defined.

(** A bounded sequence on "hello world": a byte, a slice of four, an empty
    slice, a slice of six. *)
Example bounded_reads_hello :
  all_in_bounds [ReadByte; ReadBytes 4; ReadBytes 0; ReadBytes 6] cursor_hello
  = true /\
  map pos (trace [ReadByte; ReadBytes 4; ReadBytes 0; ReadBytes 6] cursor_hello)
  = [1; 5; 5; 11].
Proof. vm_compute. split; reflexivity. Qed.

(** C3 as stated fails for a single [read_byte] on the empty buffer: the
    fresh cursor satisfies the invariant and the read leaves [pos = 1]
    above [length = 0]. *)
Lemma read_byte_breaks_invariant :
  cursor_inv cursor_empty /\
  map pos (trace [ReadByte] cursor_empty) = [1] /\
  map length (trace [ReadByte] cursor_empty) = [0] /\
  pos (run_op ReadByte cursor_empty) > length (run_op ReadByte cursor_empty).
Proof. unfold cursor_inv. cbn. repeat split; lia. Qed.

(** ** Reads for more than remains *)




(** ** The four variants *)

Lemma count_l_repeat_other (b : byte) (n : nat) :
  Byte.eqb x6c b = false -> count_l (repeat b n) = 0.
Proof.
  intros Hb. induction n as [| n IH]; [reflexivity |].
  cbn [repeat]. rewrite count_l_cons, Hb, IH. reflexivity.
Qed.

Lemma count_l_repeat_l (n : nat) : count_l (repeat x6c n) = Z.of_nat n.
Proof.
  induction n as [| n IH]; [reflexivity |].
  cbn [repeat]. rewrite count_l_cons, IH.
  change (Byte.eqb x6c x6c) with true. lia.
Qed.

Lemma count_l_app (s1 s2 : bytes) :
  count_l (s1 ++ s2) = count_l s1 + count_l s2.
Proof.
  unfold count_l. rewrite filter_app, length_app. lia.
Qed.

Lemma len_app (s1 s2 : bytes) : len (s1 ++ s2) = len s1 + len s2.
Proof. unfold len. rewrite length_app. lia. Qed.

Lemma len_repeat (b : byte) (z : Z) :
  0 <= z -> len (repeat b (Z.to_nat z)) = z.
Proof. intros Hz. unfold len. rewrite repeat_length. lia. Qed.

Lemma len_long_input : len long_input = 2147483649.
Proof.
  unfold long_input. rewrite len_app, len_repeat by lia. reflexivity.
Qed.

Lemma count_l_long_input : count_l long_input = 1.
Proof.
  unfold long_input.
  rewrite count_l_app, count_l_repeat_other by reflexivity. reflexivity.
Qed.

Lemma len_many_l : len many_l = 2147483648.
Proof. unfold many_l. apply len_repeat. lia. Qed.

Lemma count_l_many_l : count_l many_l = 2147483648.
Proof.
  unfold many_l. rewrite count_l_repeat_l. lia.
Qed.

Lemma long_fuel_enough (s : bytes) :
  len s < 2147483650 -> (List.length s < long_fuel)%nat.
Proof. unfold len, long_fuel. intros H. apply Nat2Z.inj_lt. rewrite Z2Nat.id; lia. Qed.

Lemma reader_fuel_enough (s : bytes) (fuel : nat) :
  len s < Z.of_nat fuel -> (Z.to_nat (wrap_long (len s)) < fuel)%nat.
Proof.
  intros H. pose proof (wrap_long_len_le s). pose proof (len_nonneg s). lia.
Qed.

(** On the inputs an int can measure the four variants agree: on every
    bytes object of at most [INT_MAX] bytes the four entry points return
    the same count, the number of its bytes ['l']. *)
Theorem counting_variants_agree (heap : Z -> char) (s : bytes) (fuel : nat) :
  len s <= INT_MAX -> len s < Z.of_nat fuel ->
  py_count_ls_cdef heap s = count_l s /\
  py_count_ls_bytereader heap fuel s = Some (py_count_ls_cdef heap s) /\
  py_count_ls_bytereader_single heap fuel s = Some (py_count_ls_cdef heap s) /\
  py_count_ls_bytesio fuel s = Some (py_count_ls_cdef heap s).
Proof.
  intros Hs Hfuel.
  assert (Hlong : len s <= LONG_MAX) by (unfold INT_MAX, LONG_MAX in *; lia).
  assert (Hc : wrap_int (count_l s) = count_l s).
  { apply wrap_int_id. pose proof (count_l_bounds s). unfold in_int. lia. }
  rewrite py_count_ls_cdef_eq, seen_int_all by exact Hs.
  rewrite py_count_ls_bytereader_eq, py_count_ls_bytereader_single_eq
    by (apply reader_fuel_enough; exact Hfuel).
  rewrite py_count_ls_bytesio_eq by (unfold len in Hfuel; lia).
  rewrite seen_long_all, Hc by exact Hlong.
  repeat split.
Qed.

Lemma counting_variants_agree_hello :
  py_count_ls_cdef no_heap hello_world = count_l hello_world /\
  py_count_ls_bytereader no_heap 12 hello_world
    = Some (py_count_ls_cdef no_heap hello_world) /\
  py_count_ls_bytereader_single no_heap 12 hello_world
    = Some (py_count_ls_cdef no_heap hello_world) /\
  py_count_ls_bytesio 12 hello_world
    = Some (py_count_ls_cdef no_heap hello_world).
Proof.
  apply (counting_variants_agree no_heap hello_world 12).
  - unfold INT_MAX. cbn. lia.
  - cbn. lia.
Defined.

(** C4, where the code breaks it: on [2**31] NUL bytes followed by one
    ['l'] the four variants do not return the same count.  [len(s)],
    narrowed to the [int s_len] of [count_ls_cdef], arrives negative and
    the indexed scan reads nothing and returns 0, while the other three
    variants, whose length is a long or the stream's own, find the ['l']
    and return 1. *)
Lemma variants_differ_on_long_input :
  py_count_ls_cdef no_heap long_input = 0 /\
  py_count_ls_bytereader no_heap long_fuel long_input = Some 1 /\
  py_count_ls_bytereader_single no_heap long_fuel long_input = Some 1 /\
  py_count_ls_bytesio long_fuel long_input = Some 1.
Proof.
  assert (Hlen := len_long_input).
  assert (Hfuel : (List.length long_input < long_fuel)%nat).
  { apply long_fuel_enough. rewrite Hlen. lia. }
  assert (Hreader : (Z.to_nat (wrap_long (len long_input)) < long_fuel)%nat).
  { apply reader_fuel_enough. unfold len. lia. }
  assert (Hlong : seen_long long_input = long_input).
  { apply seen_long_all. rewrite Hlen. unfold LONG_MAX. lia. }
  rewrite py_count_ls_cdef_eq.
  rewrite py_count_ls_bytereader_eq, py_count_ls_bytereader_single_eq
    by exact Hreader.
  rewrite py_count_ls_bytesio_eq by exact Hfuel.
  rewrite Hlong, count_l_long_input.
  unfold seen_int. rewrite Hlen.
  replace (Z.to_nat (wrap_int 2147483649)) with O
    by (vm_compute; reflexivity).
  repeat split.
Qed.

(** ** The entry points as functions of their argument *)

(** C9: the count an entry point returns is a function of the bytes of
    its argument alone: it is the same whatever the memory around the
    object holds and whatever fuel the loop is given beyond the length of
    the input.  The loops leave the data pointer of their cursor, and the
    stream its bytes, as [ByteReader(s, 0, len(s))] and [io.BytesIO(s)]
    made them: nothing is written to the input. *)
Theorem entry_points_deterministic
    (heap1 heap2 : Z -> char) (s : bytes) (fuel1 fuel2 : nat) :
  len s < Z.of_nat fuel1 -> len s < Z.of_nat fuel2 ->
  py_count_ls_cdef heap1 s = py_count_ls_cdef heap2 s /\
  (exists c, py_count_ls_bytereader heap1 fuel1 s = Some c /\
             py_count_ls_bytereader heap2 fuel2 s = Some c) /\
  (exists c, py_count_ls_bytereader_single heap1 fuel1 s = Some c /\
             py_count_ls_bytereader_single heap2 fuel2 s = Some c) /\
  (exists c, py_count_ls_bytesio fuel1 s = Some c /\
             py_count_ls_bytesio fuel2 s = Some c) /\
  (exists br c,
     count_ls_bytereader_loop fuel1 (ByteReader_new heap1 s) = Some (br, c) /\
     data br = bytes_as_ptr heap1 s) /\
  (exists br c,
     count_ls_bytereader_single_loop fuel1 (ByteReader_new heap1 s)
       = Some (br, c) /\
     data br = bytes_as_ptr heap1 s) /\
  (exists fo c,
     count_ls_bytesio_loop fuel1 (snd (read (BytesIO_new s) 1%nat))
       (fst (read (BytesIO_new s) 1%nat)) 0 = Some (fo, c) /\
     getvalue fo = s).
Proof.
  intros H1 H2.
  assert (R1 := reader_fuel_enough s fuel1 H1).
  assert (R2 := reader_fuel_enough s fuel2 H2).
  rewrite !py_count_ls_cdef_eq.
  rewrite !py_count_ls_bytereader_eq, !py_count_ls_bytereader_single_eq
    by assumption.
  rewrite !py_count_ls_bytesio_eq by (unfold len in *; lia).
  rewrite count_ls_bytereader_loop_eq, count_ls_bytereader_single_loop_eq
    by (try apply well_typed_new; cbn [ByteReader_new pos length]; lia).
  split; [reflexivity |].
  split; [eexists; split; reflexivity |].
  split; [eexists; split; reflexivity |].
  split; [eexists; split; reflexivity |].
  split; [do 2 eexists; split; reflexivity |].
  split; [do 2 eexists; split; reflexivity |].
  pose proof (count_ls_bytesio_loop_run s (List.length s - 0) 0 0 fuel1
                eq_refl ltac:(unfold len in *; lia) in_int_0) as H.
  change (@read BytesIO BytesIO_Readable) with BytesIO_read.
  unfold BytesIO_new.
  destruct (BytesIO_read {| getvalue := s; tell := 0 |} 1) as [c0 fo0].
  cbn [fst snd]. rewrite H. do 2 eexists. split; reflexivity.
Qed.

Lemma entry_points_deterministic_hello :
  py_count_ls_cdef no_heap hello_world
    = py_count_ls_cdef (fun a => a) hello_world /\
  (exists c, py_count_ls_bytereader no_heap 12 hello_world = Some c /\
             py_count_ls_bytereader (fun a => a) 20 hello_world = Some c) /\
  (exists c, py_count_ls_bytereader_single no_heap 12 hello_world = Some c /\
             py_count_ls_bytereader_single (fun a => a) 20 hello_world
               = Some c) /\
  (exists c, py_count_ls_bytesio 12 hello_world = Some c /\
             py_count_ls_bytesio 20 hello_world = Some c) /\
  (exists br c,
     count_ls_bytereader_loop 12 (ByteReader_new no_heap hello_world)
       = Some (br, c) /\
     data br = bytes_as_ptr no_heap hello_world) /\
  (exists br c,
     count_ls_bytereader_single_loop 12 (ByteReader_new no_heap hello_world)
       = Some (br, c) /\
     data br = bytes_as_ptr no_heap hello_world) /\
  (exists fo c,
     count_ls_bytesio_loop 12 (snd (read (BytesIO_new hello_world) 1%nat))
       (fst (read (BytesIO_new hello_world) 1%nat)) 0 = Some (fo, c) /\
     getvalue fo = hello_world).
Proof.
  apply (entry_points_deterministic no_heap (fun a => a) hello_world 12 20).
  - cbn. lia.
  - cbn. lia.
Defined.

(** ** The range of the count *)

(** On the inputs whose count an int can hold the count is in range:
    when [s] has at most [INT_MAX] bytes ['l'], the count each entry point
    returns lies between 0 and [len(s)]; that of [py_count_ls_cdef] does so
    for every [s]. *)
Theorem count_within_length (heap : Z -> char) (s : bytes) (fuel : nat) :
  len s <= LONG_MAX -> count_l s <= INT_MAX -> len s < Z.of_nat fuel ->
  (forall s', 0 <= py_count_ls_cdef heap s' <= len s') /\
  (exists c, py_count_ls_bytereader heap fuel s = Some c /\ 0 <= c <= len s) /\
  (exists c, py_count_ls_bytereader_single heap fuel s = Some c /\
             0 <= c <= len s) /\
  (exists c, py_count_ls_bytesio fuel s = Some c /\ 0 <= c <= len s).
Proof.
  intros Hs Hl Hfuel.
  pose proof (count_l_bounds s) as Hb.
  assert (Hc : wrap_int (count_l s) = count_l s).
  { apply wrap_int_id. unfold in_int. lia. }
  rewrite py_count_ls_bytereader_eq, py_count_ls_bytereader_single_eq
    by (apply reader_fuel_enough; exact Hfuel).
  rewrite py_count_ls_bytesio_eq by (unfold len in Hfuel; lia).
  rewrite seen_long_all, Hc by exact Hs.
  split; [| repeat split; eexists; (split; [reflexivity | exact Hb])].
  intros s'. rewrite py_count_ls_cdef_eq.
  pose proof (count_l_bounds (seen_int s')) as Hb'.
  assert (len (seen_int s') <= len s').
  { unfold seen_int, len. rewrite length_firstn. lia. }
  lia.
Qed.

Lemma count_within_length_hello :
  (forall s', 0 <= py_count_ls_cdef no_heap s' <= len s') /\
  (exists c, py_count_ls_bytereader no_heap 12 hello_world = Some c /\
             0 <= c <= len hello_world) /\
  (exists c, py_count_ls_bytereader_single no_heap 12 hello_world = Some c /\
             0 <= c <= len hello_world) /\
  (exists c, py_count_ls_bytesio 12 hello_world = Some c /\
             0 <= c <= len hello_world).
Proof.
  apply (count_within_length no_heap hello_world 12).
  - unfold LONG_MAX. cbn. lia.
  - unfold INT_MAX. cbn. lia.
  - cbn. lia.
Defined.

(** C10, where the code breaks it: on [2**31] bytes ['l'] the count is
    not between 0 and [len(s)].  The loops run over a long length or a
    whole stream, the [int count] they add to overflows, and the three of
    them return [-2**31]. *)
Lemma count_wraps_on_many_l :
  py_count_ls_bytereader no_heap long_fuel many_l = Some (-2147483648) /\
  py_count_ls_bytereader_single no_heap long_fuel many_l
    = Some (-2147483648) /\
  py_count_ls_bytesio long_fuel many_l = Some (-2147483648) /\
  -2147483648 < 0 <= len many_l.
Proof.
  assert (Hlen := len_many_l).
  assert (Hfuel : (List.length many_l < long_fuel)%nat).
  { apply long_fuel_enough. rewrite Hlen. lia. }
  assert (Hreader : (Z.to_nat (wrap_long (len many_l)) < long_fuel)%nat).
  { apply reader_fuel_enough. unfold len. lia. }
  assert (Hlong : seen_long many_l = many_l).
  { apply seen_long_all. rewrite Hlen. unfold LONG_MAX. lia. }
  rewrite py_count_ls_bytereader_eq, py_count_ls_bytereader_single_eq
    by exact Hreader.
  rewrite py_count_ls_bytesio_eq by exact Hfuel.
  rewrite Hlong, count_l_many_l, Hlen.
  change (wrap_int 2147483648) with (-2147483648).
  repeat split; lia.
Qed.

(** * Further properties of the reads and the loops *)

(** ** The two reads against each other *)

Lemma wrap_long_add_l (a b : Z) :
  wrap_long (wrap_long a + b) = wrap_long (a + b).
Proof. apply swrap_add_l; lia. Qed.

Lemma read_byte_n_eq (k : nat) : forall br,
  in_long (pos br) -> in_long (pos br + Z.of_nat k) ->
  read_byte_n k br
  = (map (fun i => deref (data br) (pos br + Z.of_nat i)) (seq 0 k),
     set_pos br (pos br + Z.of_nat k)).
Proof.
  induction k as [| k IH]; intros br Hp Hk; cbn [read_byte_n].
  - cbn [seq map Z.of_nat]. rewrite Z.add_0_r, set_pos_same. reflexivity.
  - rewrite read_byte_eq by (unfold in_long, LONG_MAX in *; lia).
    rewrite IH; cbn [set_pos data pos length];
      [| unfold in_long in *; lia
       | replace (pos br + 1 + Z.of_nat k) with (pos br + Z.of_nat (S k))
           by lia; exact Hk].
    cbn [seq map]. rewrite <- seq_shift, map_map.
    replace (pos br + 1 + Z.of_nat k) with (pos br + Z.of_nat (S k)) by lia.
    f_equal. f_equal.
    + f_equal. cbn. lia.
    + apply map_ext. intros i. f_equal. lia.
Qed.

(** [k] calls of [read_byte] and one call of [read_bytes(k)] are the same
    read: the chars returned one by one are those seen through the view,
    and the cursor is left the same, whatever [length] is. *)
Theorem read_byte_n_as_read_bytes (br : ByteReader) (k : nat) :
  in_long (pos br) -> in_long (pos br + Z.of_nat k) ->
  read_byte_n k br
  = (view (fst (read_bytes br (Z.of_nat k))) (Z.of_nat k),
     snd (read_bytes br (Z.of_nat k))).
Proof.
  intros Hp Hk.
  rewrite read_byte_n_eq, read_bytes_eq by assumption.
  cbn [fst snd]. f_equal.
  unfold view, range. rewrite Nat2Z.id, map_map.
  apply map_ext. intros i. rewrite deref_ptr_add. reflexivity.
Qed.

Lemma read_byte_n_as_read_bytes_hello :
  read_byte_n 5 cursor_hello
  = (view (fst (read_bytes cursor_hello (Z.of_nat 5))) (Z.of_nat 5),
     snd (read_bytes cursor_hello (Z.of_nat 5))).
Proof.
  apply (read_byte_n_as_read_bytes cursor_hello 5).
  - unfold in_long, LONG_MAX. cbn. lia.
  - unfold in_long, LONG_MAX. cbn. lia.
Defined.

(** Two slices in a row are one slice: [read_bytes(n)] then
    [read_bytes(m)] leave the cursor where [read_bytes(n + m)] does, even
    across a wrap of [pos]; the first view is that of the single call and,
    when [pos + n] is a long, the second starts [n] chars after the
    first. *)
Theorem read_bytes_compose (br : ByteReader) (n m : Z) :
  in_long (pos br) ->
  snd (read_bytes (snd (read_bytes br n)) m) = snd (read_bytes br (n + m)) /\
  fst (read_bytes br n) = fst (read_bytes br (n + m)) /\
  (in_long (pos br + n) ->
   fst (read_bytes (snd (read_bytes br n)) m)
   = ptr_add (fst (read_bytes br n)) n).
Proof.
  intros Hp.
  assert (Hback : forall a, wrap_long (wrap_long (pos br + a) - a) = pos br).
  { intros a. unfold Z.sub. rewrite wrap_long_add_l.
    replace (pos br + a + - a) with (pos br) by lia.
    apply wrap_long_id, Hp. }
  unfold read_bytes. cbn [fst snd set_pos data pos length].
  rewrite wrap_long_add_l, !Hback.
  replace (pos br + n + m) with (pos br + (n + m)) by lia.
  split; [reflexivity | split; [reflexivity |]].
  intros Hn.
  unfold Z.sub. rewrite wrap_long_add_l.
  replace (pos br + (n + m) + - m) with (pos br + n) by lia.
  rewrite (wrap_long_id _ Hn).
  unfold ptr_add. cbn [mem ofs]. f_equal. lia.
Qed.

Lemma read_bytes_compose_hello :
  snd (read_bytes (snd (read_bytes cursor_hello 5)) 6)
  = snd (read_bytes cursor_hello (5 + 6)) /\
  fst (read_bytes cursor_hello 5) = fst (read_bytes cursor_hello (5 + 6)) /\
  (in_long (pos cursor_hello + 5) ->
   fst (read_bytes (snd (read_bytes cursor_hello 5)) 6)
   = ptr_add (fst (read_bytes cursor_hello 5)) 5).
Proof.
  apply (read_bytes_compose cursor_hello 5 6).
  unfold in_long, LONG_MAX. cbn. lia.
Defined.

(** [read_bytes] takes a negative count, which moves the cursor back:
    for [n > 0], [read_bytes(-n)] leaves [pos - n] in [pos], below where it
    was, with no test against 0 or [length], and returns the pointer
    [data + pos] of the position it left; and [read_bytes(-n)] after
    [read_bytes(n)] restores the cursor, whatever [n] is. *)
Theorem read_bytes_rewind (br : ByteReader) (n : Z) :
  in_long (pos br) ->
  (0 < n -> in_long (pos br - n) ->
   read_bytes br (- n) = (ptr_add (data br) (pos br), set_pos br (pos br - n)) /\
   pos (snd (read_bytes br (- n))) < pos br) /\
  (in_long (pos br + n) -> pos (snd (read_bytes br n)) = pos br + n) /\
  snd (read_bytes (snd (read_bytes br n)) (- n)) = br.
Proof.
  intros Hp. split; [| split].
  - intros Hn Hback.
    rewrite read_bytes_eq by (try assumption; unfold Z.sub in Hback; exact Hback).
    cbn [snd set_pos pos]. split; [reflexivity | lia].
  - intros Hfwd. rewrite read_bytes_eq by assumption. reflexivity.
  - unfold read_bytes. cbn [snd set_pos data pos length].
    rewrite wrap_long_add_l.
    replace (pos br + n + - n) with (pos br) by lia.
    rewrite (wrap_long_id _ Hp).
    exact (set_pos_same br).
Qed.

Lemma read_bytes_rewind_hello :
  (0 < 3 -> in_long (pos (snd (read_bytes cursor_hello 7)) - 3) ->
   read_bytes (snd (read_bytes cursor_hello 7)) (- 3)
   = (ptr_add (data (snd (read_bytes cursor_hello 7)))
              (pos (snd (read_bytes cursor_hello 7))),
      set_pos (snd (read_bytes cursor_hello 7))
              (pos (snd (read_bytes cursor_hello 7)) - 3)) /\
   pos (snd (read_bytes (snd (read_bytes cursor_hello 7)) (- 3)))
   < pos (snd (read_bytes cursor_hello 7))) /\
  (in_long (pos (snd (read_bytes cursor_hello 7)) + 3) ->
   pos (snd (read_bytes (snd (read_bytes cursor_hello 7)) 3))
   = pos (snd (read_bytes cursor_hello 7)) + 3) /\
  snd (read_bytes (snd (read_bytes (snd (read_bytes cursor_hello 7)) 3)) (- 3))
  = snd (read_bytes cursor_hello 7).
Proof.
  apply (read_bytes_rewind (snd (read_bytes cursor_hello 7)) 3).
  unfold in_long, LONG_MAX. cbn. lia.
Defined.

(** A slice of seven forward and a slice of three back on "hello world":
    the cursor stands at 4 and the pointer returned shows the chars from
    position 7 on. *)
Example read_bytes_back_hello :
  pos (snd (read_bytes (snd (read_bytes cursor_hello 7)) (- 3))) = 4 /\
  view (fst (read_bytes (snd (read_bytes cursor_hello 7)) (- 3))) 4
  = [111; 114; 108; 100].
Proof. vm_compute. split; reflexivity. Qed.

(** ** What the loops read *)

(** Two loops whose states stay related turn by turn stop together, on
    related states. *)
Lemma while_sim {S T : Type} (R : S -> T -> Prop)
    (cond1 : S -> bool) (body1 : S -> S)
    (cond2 : T -> bool) (body2 : T -> T) :
  (forall s t, R s t -> cond1 s = cond2 t) ->
  (forall s t, R s t -> cond1 s = true -> R (body1 s) (body2 t)) ->
  forall fuel s t, R s t ->
  match while cond1 body1 fuel s, while cond2 body2 fuel t with
  | Some s', Some t' => R s' t'
  | None, None => True
  | _, _ => False
  end.
Proof.
  intros Hcond Hbody. induction fuel as [| fuel IH]; intros s t HR.
  - exact I.
  - cbn [while]. rewrite <- (Hcond s t HR).
    destruct (cond1 s) eqn:E.
    + apply IH, Hbody; assumption.
    + exact HR.
Qed.

(** Cursors at the same place whose memories agree on [[pos, length)]. *)
Lemma window_step (body : reader_state -> reader_state) :
  (forall br count, well_typed br -> pos br < length br ->
     body (br, count)
     = (set_pos br (pos br + 1),
        if deref (data br) (pos br) =? b_l
        then wrap_int (count + 1) else count)) ->
  forall fuel br1 br2,
  well_typed br1 -> pos br2 = pos br1 -> length br2 = length br1 ->
  (forall i, pos br1 <= i < length br1 ->
             deref (data br1) i = deref (data br2) i) ->
  option_map snd (while reader_cond body fuel (br1, 0))
  = option_map snd (while reader_cond body fuel (br2, 0)).
Proof.
  intros Hstep fuel br1 br2 Hwt Hpos Hlen Hwin.
  pose (R := fun (s t : reader_state) =>
    snd s = snd t /\ well_typed (fst s) /\
    pos (fst t) = pos (fst s) /\ length (fst t) = length (fst s) /\
    forall i, pos (fst s) <= i < length (fst s) ->
              deref (data (fst s)) i = deref (data (fst t)) i).
  pose proof (while_sim R reader_cond body reader_cond body) as Sim.
  specialize (Sim
    ltac:(intros [b1 c1] [b2 c2] (_ & _ & Hp & Hl & _);
          unfold reader_cond; cbn [fst] in *; rewrite Hp, Hl; reflexivity)).
  assert (Hb : forall s t, R s t -> reader_cond s = true ->
                           R (body s) (body t)).
  { intros [b1 c1] [b2 c2] (Hc & Hw & Hp & Hl & Hd) Hcond.
    unfold reader_cond in Hcond. cbn [fst snd] in *.
    apply Z.ltb_lt in Hcond. subst c2.
    assert (Hw2 : well_typed b2)
      by (destruct Hw; split; rewrite ?Hp, ?Hl; assumption).
    rewrite (Hstep b1), (Hstep b2) by (try assumption; lia).
    rewrite Hp, <- (Hd (pos b1)) by lia.
    unfold R. cbn [fst snd set_pos data pos length].
    destruct Hw as [Hwp Hwl].
    split; [reflexivity |].
    split; [split; cbn [set_pos pos length]; unfold in_long in *; lia |].
    split; [lia |]. split; [exact Hl |].
    intros i Hi. apply Hd. lia. }
  specialize (Sim Hb fuel (br1, 0) (br2, 0)
                ltac:(unfold R; cbn [fst snd]; auto)).
  destruct (while reader_cond body fuel (br1, 0)) as [[b1 c1] |],
           (while reader_cond body fuel (br2, 0)) as [[b2 c2] |];
    cbn [option_map snd]; try contradiction; [| reflexivity].
  destruct Sim as (Hc & _). cbn [snd] in Hc. rewrite Hc. reflexivity.
Qed.

(** The cursor loops read nothing outside [[pos, length)]: on two cursors
    with the same [pos] and [length] whose memories hold the same chars at
    those positions, each loop returns the same count, whatever the
    memories hold elsewhere and whatever the fuel. *)
Theorem cursor_loops_read_window (br1 br2 : ByteReader) (fuel : nat) :
  well_typed br1 -> pos br2 = pos br1 -> length br2 = length br1 ->
  (forall i, pos br1 <= i < length br1 ->
             deref (data br1) i = deref (data br2) i) ->
  count_ls_bytereader fuel br1 = count_ls_bytereader fuel br2 /\
  count_ls_bytereader_single fuel br1 = count_ls_bytereader_single fuel br2.
Proof.
  intros Hwt Hpos Hlen Hwin. split.
  - apply (window_step _ count_ls_bytereader_body_step); assumption.
  - apply (window_step _ count_ls_bytereader_single_body_step); assumption.
Qed.

Lemma cursor_loops_read_window_hello :
  count_ls_bytereader 12 cursor_hello
  = count_ls_bytereader 12 (ByteReader_new (fun a => a) hello_world) /\
  count_ls_bytereader_single 12 cursor_hello
  = count_ls_bytereader_single 12 (ByteReader_new (fun a => a) hello_world).
Proof.
  apply (cursor_loops_read_window cursor_hello
           (ByteReader_new (fun a => a) hello_world) 12).
  - typed.
  - reflexivity.
  - reflexivity.
  - intros i Hi.
    assert (Hi' : 0 <= i < len hello_world) by (cbn in Hi |- *; lia).
    change (data cursor_hello) with (bytes_as_ptr no_heap hello_world).
    change (data (ByteReader_new (fun a => a) hello_world))
      with (bytes_as_ptr (fun a => a) hello_world).
    rewrite !deref_bytes by exact Hi'. reflexivity.
Defined.

Lemma fold_left_agree {A B : Type} (f g : A -> B -> A) (l : list B) :
  (forall a x, In x l -> f a x = g a x) ->
  forall a, fold_left f l a = fold_left g l a.
Proof.
  induction l as [| x l IH]; intros H a; cbn [fold_left]; [reflexivity |].
  rewrite (H a x) by (left; reflexivity).
  apply IH. intros a' y Hy. apply H. right. exact Hy.
Qed.

Lemma in_range (n i : Z) : In i (range n) -> 0 <= i < n.
Proof.
  unfold range. intros H. apply in_map_iff in H.
  destruct H as (k & Hk & Hin). apply in_seq in Hin. lia.
Qed.

(** The indexed scan reads nothing outside [[0, s_len)]: two pointers
    that show the same chars at those indexes give the same count. *)
Theorem count_ls_cdef_reads_window (s1 s2 : char_ptr) (s_len : Z) :
  (forall i, 0 <= i < s_len -> deref s1 i = deref s2 i) ->
  count_ls_cdef s1 s_len = count_ls_cdef s2 s_len.
Proof.
  intros Hwin. unfold count_ls_cdef.
  apply fold_left_agree. intros count i Hi.
  rewrite (Hwin i) by (apply in_range; exact Hi). reflexivity.
Qed.

Lemma count_ls_cdef_reads_window_hello :
  count_ls_cdef (bytes_as_ptr no_heap hello_world) 11
  = count_ls_cdef (bytes_as_ptr (fun a => a) hello_world) 11.
Proof.
  apply (count_ls_cdef_reads_window (bytes_as_ptr no_heap hello_world)
           (bytes_as_ptr (fun a => a) hello_world) 11).
  intros i Hi.
  assert (Hi' : 0 <= i < len hello_world) by (cbn; lia).
  rewrite !deref_bytes by exact Hi'. reflexivity.
Defined.

Lemma while_agree {S : Type} (Inv : S -> Prop) (cond : S -> bool)
    (body1 body2 : S -> S) :
  (forall s, Inv s -> cond s = true -> body1 s = body2 s /\ Inv (body1 s)) ->
  forall fuel s, Inv s -> while cond body1 fuel s = while cond body2 fuel s.
Proof.
  intros H. induction fuel as [| fuel IH]; intros s Hs; cbn [while].
  - reflexivity.
  - destruct (cond s) eqn:E; [| reflexivity].
    destruct (H s Hs E) as [Heq Hinv]. rewrite <- Heq. apply IH, Hinv.
Qed.

(** The two cursor loops are the same loop: on every cursor whose [pos]
    and [length] are longs they end on the same cursor with the same
    count, or both run out of the same fuel. *)
Theorem cursor_loops_agree (br : ByteReader) (fuel : nat) :
  well_typed br ->
  count_ls_bytereader_loop fuel br = count_ls_bytereader_single_loop fuel br /\
  count_ls_bytereader fuel br = count_ls_bytereader_single fuel br.
Proof.
  intros Hwt.
  assert (E : count_ls_bytereader_loop fuel br
              = count_ls_bytereader_single_loop fuel br).
  { unfold count_ls_bytereader_loop, count_ls_bytereader_single_loop.
    apply (while_agree (fun st => well_typed (fst st))); [| exact Hwt].
    intros [cur count] Hcur Hcond. cbn [fst] in Hcur.
    unfold reader_cond in Hcond. cbn [fst] in Hcond. apply Z.ltb_lt in Hcond.
    rewrite count_ls_bytereader_body_step,
      count_ls_bytereader_single_body_step by assumption.
    split; [reflexivity |].
    cbn [fst]. destruct Hcur as [Hp Hl].
    split; cbn [set_pos pos length]; unfold in_long in *; lia. }
  split; [exact E |].
  unfold count_ls_bytereader, count_ls_bytereader_single. rewrite E.
  reflexivity.
Qed.

Lemma cursor_loops_agree_hello :
  count_ls_bytereader_loop 12 cursor_hello
  = count_ls_bytereader_single_loop 12 cursor_hello /\
  count_ls_bytereader 12 cursor_hello
  = count_ls_bytereader_single 12 cursor_hello.
Proof.
  apply (cursor_loops_agree cursor_hello 12). typed.
Defined.

(** ** Counting in two parts *)

Lemma num_matches_split (p : char_ptr) (t : char) (mid hi : Z) (n : nat) :
  forall lo, Z.to_nat (mid - lo) = n -> lo <= mid <= hi ->
  num_matches p t lo hi = num_matches p t lo mid + num_matches p t mid hi.
Proof.
  induction n as [| n IH]; intros lo Hn Hle.
  - replace lo with mid by lia.
    rewrite (num_matches_nil p t mid mid) by lia. reflexivity.
  - rewrite (num_matches_cons p t lo hi), (num_matches_cons p t lo mid) by lia.
    rewrite (IH (lo + 1)) by lia. lia.
Qed.

Lemma num_matches_ptr_add (p : char_ptr) (a : Z) (t : char) (hi : Z)
    (n : nat) :
  forall lo, Z.to_nat (hi - lo) = n ->
  num_matches (ptr_add p a) t lo hi = num_matches p t (a + lo) (a + hi).
Proof.
  induction n as [| n IH]; intros lo Hn.
  - rewrite !num_matches_nil by lia. reflexivity.
  - rewrite (num_matches_cons (ptr_add p a) t lo hi),
      (num_matches_cons p t (a + lo) (a + hi)) by lia.
    rewrite deref_ptr_add, (IH (lo + 1)) by lia.
    replace (a + (lo + 1)) with (a + lo + 1) by lia. reflexivity.
Qed.

(** A count in two parts: when the bytes left fit an int, the count of a
    cursor is the indexed scan of the [k] chars a [read_bytes(k)] returns
    plus the count of the cursor that read leaves, for either cursor
    loop. *)
Theorem count_splits_at_read (br : ByteReader) (k : Z) (fuel : nat) :
  well_typed br -> 0 <= k -> pos br + k <= length br ->
  length br - pos br <= INT_MAX -> length br - pos br < Z.of_nat fuel ->
  exists rest,
    count_ls_bytereader fuel (snd (read_bytes br k)) = Some rest /\
    count_ls_bytereader_single fuel (snd (read_bytes br k)) = Some rest /\
    count_ls_bytereader fuel br
    = Some (count_ls_cdef (fst (read_bytes br k)) k + rest) /\
    count_ls_bytereader_single fuel br
    = Some (count_ls_cdef (fst (read_bytes br k)) k + rest).
Proof.
  intros Hwt Hk Hle Hint Hfuel. destruct Hwt as [Hp Hl].
  rewrite read_bytes_eq by (unfold in_long in *; lia). cbn [fst snd].
  assert (Hwt' : well_typed (set_pos br (pos br + k)))
    by (split; cbn [set_pos pos length]; unfold in_long in *; lia).
  unfold count_ls_bytereader, count_ls_bytereader_single.
  rewrite !count_ls_bytereader_loop_eq, !count_ls_bytereader_single_loop_eq
    by (try assumption; try (split; assumption);
        cbn [set_pos pos length]; lia).
  cbn [option_map snd set_pos data pos length].
  rewrite count_ls_cdef_eq by (unfold in_int, INT_MAX in *; lia).
  rewrite (num_matches_ptr_add _ _ _ _ (Z.to_nat (k - 0))) by reflexivity.
  rewrite Z.add_0_r.
  pose proof (num_matches_bounds (data br) b_l (pos br) (length br)) as B.
  pose proof (num_matches_bounds (data br) b_l (pos br) (pos br + k)) as B1.
  pose proof (num_matches_bounds (data br) b_l (pos br + k) (length br)) as B2.
  pose proof (num_matches_split (data br) b_l (pos br + k) (length br)
                (Z.to_nat (pos br + k - pos br)) (pos br) eq_refl
                ltac:(lia)) as Hsplit.
  rewrite (wrap_int_id (num_matches (data br) b_l (pos br) (length br)))
    by (unfold in_int, INT_MAX in *; lia).
  rewrite (wrap_int_id (num_matches (data br) b_l (pos br + k) (length br)))
    by (unfold in_int, INT_MAX in *; lia).
  rewrite Hsplit.
  eexists. repeat split.
Qed.

Lemma count_splits_at_read_hello :
  exists rest,
    count_ls_bytereader 12 (snd (read_bytes cursor_hello 5)) = Some rest /\
    count_ls_bytereader_single 12 (snd (read_bytes cursor_hello 5))
    = Some rest /\
    count_ls_bytereader 12 cursor_hello
    = Some (count_ls_cdef (fst (read_bytes cursor_hello 5)) 5 + rest) /\
    count_ls_bytereader_single 12 cursor_hello
    = Some (count_ls_cdef (fst (read_bytes cursor_hello 5)) 5 + rest).
Proof.
  apply (count_splits_at_read cursor_hello 5 12).
  - typed.
  - lia.
  - cbn. lia.
  - unfold INT_MAX. cbn. lia.
  - cbn. lia.
Defined.

(** ** The stream *)

(** [count_ls_bytesio] consumes its stream: started on a stream at
    position [p], it returns the number of ['l'] among the bytes from [p]
    on, held in a C int, and leaves the stream at its end with its bytes
    unchanged, so that a second call on the stream returns 0. *)
Theorem count_ls_bytesio_consumes (s : bytes) (p fuel : nat) :
  (List.length s - p < fuel)%nat ->
  count_ls_bytesio fuel {| getvalue := s; tell := p |}
  = Some (wrap_int (count_l (skipn p s))) /\
  exists fo c,
    count_ls_bytesio_loop fuel
      (snd (read {| getvalue := s; tell := p |} 1%nat))
      (fst (read {| getvalue := s; tell := p |} 1%nat)) 0 = Some (fo, c) /\
    getvalue fo = s /\ tell fo = Nat.max p (List.length s) /\
    count_ls_bytesio fuel fo = Some 0.
Proof.
  intros Hfuel.
  pose proof (count_ls_bytesio_loop_run s (List.length s - p) p 0 fuel
                eq_refl Hfuel in_int_0) as H.
  pose proof (count_ls_bytesio_loop_run s
                (List.length s - Nat.max p (List.length s))
                (Nat.max p (List.length s)) 0 fuel
                eq_refl ltac:(lia) in_int_0) as H2.
  unfold count_ls_bytesio.
  change (@read BytesIO BytesIO_Readable) with BytesIO_read.
  destruct (BytesIO_read {| getvalue := s; tell := p |} 1) as [c0 fo0].
  cbn [fst snd]. rewrite H. cbn [option_map snd]. rewrite Z.add_0_l.
  split; [reflexivity |].
  do 2 eexists. split; [reflexivity |].
  cbn [getvalue tell]. split; [reflexivity |]. split; [reflexivity |].
  destruct (BytesIO_read
              {| getvalue := s; tell := Nat.max p (List.length s) |} 1)
    as [c1 fo1].
  rewrite H2. cbn [option_map snd].
  rewrite skipn_all_nil by lia. reflexivity.
Qed.

Lemma count_ls_bytesio_consumes_hello :
  count_ls_bytesio 12 {| getvalue := hello_world; tell := 3 |}
  = Some (wrap_int (count_l (skipn 3 hello_world))) /\
  exists fo c,
    count_ls_bytesio_loop 12
      (snd (read {| getvalue := hello_world; tell := 3 |} 1%nat))
      (fst (read {| getvalue := hello_world; tell := 3 |} 1%nat)) 0
    = Some (fo, c) /\
    getvalue fo = hello_world /\
    tell fo = Nat.max 3 (List.length hello_world) /\
    count_ls_bytesio 12 fo = Some 0.
Proof.
  apply (count_ls_bytesio_consumes hello_world 3 12).
  cbn. lia.
Defined.

(** ** The entry points on every input *)

(** [py_count_ls_cdef] on every bytes object: it scans the first
    [(int) len(s)] bytes, nothing at all when that int is negative, and
    returns the number of ['l'] among them. *)
Theorem py_count_ls_cdef_scans_prefix (heap : Z -> char) (s : bytes) :
  py_count_ls_cdef heap s
  = count_l (firstn (Z.to_nat (wrap_int (len s))) s).
Proof. apply py_count_ls_cdef_eq. Qed.

(** The cursor and stream entry points on every bytes object: each
    returns the number of ['l'] of [s] reduced to a C int, given fuel for
    the length of [s]. *)
Theorem py_loops_count_modulo (heap : Z -> char) (s : bytes) (fuel : nat) :
  len s <= LONG_MAX -> len s < Z.of_nat fuel ->
  py_count_ls_bytereader heap fuel s = Some (wrap_int (count_l s)) /\
  py_count_ls_bytereader_single heap fuel s = Some (wrap_int (count_l s)) /\
  py_count_ls_bytesio fuel s = Some (wrap_int (count_l s)).
Proof.
  intros Hs Hfuel.
  rewrite py_count_ls_bytereader_eq, py_count_ls_bytereader_single_eq
    by (apply reader_fuel_enough; exact Hfuel).
  rewrite py_count_ls_bytesio_eq by (unfold len in Hfuel; lia).
  rewrite seen_long_all by exact Hs.
  repeat split.
Qed.

Lemma py_loops_count_modulo_hello :
  py_count_ls_bytereader no_heap 12 hello_world
  = Some (wrap_int (count_l hello_world)) /\
  py_count_ls_bytereader_single no_heap 12 hello_world
  = Some (wrap_int (count_l hello_world)) /\
  py_count_ls_bytesio 12 hello_world = Some (wrap_int (count_l hello_world)).
Proof.
  apply (py_loops_count_modulo no_heap hello_world 12).
  - unfold LONG_MAX. cbn. lia.
  - cbn. lia.
Defined.

(** On a single byte, each entry point returns 1 when the byte is [0x6C]
    and 0 for each of the other 255 values: the signed comparison of the
    cursor loops and the unsigned one of the stream loop single out the
    same byte. *)
Theorem one_byte_counts (heap : Z -> char) (b : byte) (fuel : nat) :
  (1 < fuel)%nat ->
  py_count_ls_cdef heap [b] = (if Byte.eqb x6c b then 1 else 0) /\
  py_count_ls_bytereader heap fuel [b]
  = Some (if Byte.eqb x6c b then 1 else 0) /\
  py_count_ls_bytereader_single heap fuel [b]
  = Some (if Byte.eqb x6c b then 1 else 0) /\
  py_count_ls_bytesio fuel [b] = Some (if Byte.eqb x6c b then 1 else 0).
Proof.
  intros Hfuel.
  destruct fuel as [| [| fuel]]; [lia | lia |].
  destruct b; vm_compute; repeat split.
Qed.

Lemma one_byte_counts_ff :
  py_count_ls_cdef no_heap [xff] = (if Byte.eqb x6c xff then 1 else 0) /\
  py_count_ls_bytereader no_heap 2 [xff]
  = Some (if Byte.eqb x6c xff then 1 else 0) /\
  py_count_ls_bytereader_single no_heap 2 [xff]
  = Some (if Byte.eqb x6c xff then 1 else 0) /\
  py_count_ls_bytesio 2 [xff] = Some (if Byte.eqb x6c xff then 1 else 0).
Proof.
  apply (one_byte_counts no_heap xff 2). lia.
Defined.

(** Counts add up over a concatenation: when [s1 ++ s2] has at most
    [INT_MAX] bytes, the four entry points return one count [c1] on [s1],
    one count [c2] on [s2], and [c1 + c2] on [s1 ++ s2]. *)
Theorem counts_add_over_concat
    (heap : Z -> char) (s1 s2 : bytes) (fuel : nat) :
  len (s1 ++ s2) <= INT_MAX -> len (s1 ++ s2) < Z.of_nat fuel ->
  exists c1 c2,
    (py_count_ls_cdef heap s1 = c1 /\
     py_count_ls_bytereader heap fuel s1 = Some c1 /\
     py_count_ls_bytereader_single heap fuel s1 = Some c1 /\
     py_count_ls_bytesio fuel s1 = Some c1) /\
    (py_count_ls_cdef heap s2 = c2 /\
     py_count_ls_bytereader heap fuel s2 = Some c2 /\
     py_count_ls_bytereader_single heap fuel s2 = Some c2 /\
     py_count_ls_bytesio fuel s2 = Some c2) /\
    (py_count_ls_cdef heap (s1 ++ s2) = c1 + c2 /\
     py_count_ls_bytereader heap fuel (s1 ++ s2) = Some (c1 + c2) /\
     py_count_ls_bytereader_single heap fuel (s1 ++ s2) = Some (c1 + c2) /\
     py_count_ls_bytesio fuel (s1 ++ s2) = Some (c1 + c2)).
Proof.
  intros Hs Hfuel. rewrite len_app in Hs, Hfuel.
  pose proof (len_nonneg s1). pose proof (len_nonneg s2).
  pose proof (count_l_bounds s1). pose proof (count_l_bounds s2).
  exists (count_l s1), (count_l s2).
  rewrite !py_count_ls_cdef_eq.
  rewrite !seen_int_all by (rewrite ?len_app; lia).
  rewrite !py_count_ls_bytereader_eq, !py_count_ls_bytereader_single_eq
    by (apply reader_fuel_enough; rewrite ?len_app; lia).
  rewrite !py_count_ls_bytesio_eq
    by (unfold len in *; rewrite ?length_app; lia).
  rewrite !seen_long_all
    by (rewrite ?len_app; unfold INT_MAX, LONG_MAX in *; lia).
  rewrite count_l_app.
  rewrite !wrap_int_id by (unfold in_int, INT_MAX in *; lia).
  repeat split.
Qed.

Lemma counts_add_over_concat_hello :
  exists c1 c2,
    (py_count_ls_cdef no_heap hello_world = c1 /\
     py_count_ls_bytereader no_heap 23 hello_world = Some c1 /\
     py_count_ls_bytereader_single no_heap 23 hello_world = Some c1 /\
     py_count_ls_bytesio 23 hello_world = Some c1) /\
    (py_count_ls_cdef no_heap [x6c; x6c] = c2 /\
     py_count_ls_bytereader no_heap 23 [x6c; x6c] = Some c2 /\
     py_count_ls_bytereader_single no_heap 23 [x6c; x6c] = Some c2 /\
     py_count_ls_bytesio 23 [x6c; x6c] = Some c2) /\
    (py_count_ls_cdef no_heap (hello_world ++ [x6c; x6c]) = c1 + c2 /\
     py_count_ls_bytereader no_heap 23 (hello_world ++ [x6c; x6c])
     = Some (c1 + c2) /\
     py_count_ls_bytereader_single no_heap 23 (hello_world ++ [x6c; x6c])
     = Some (c1 + c2) /\
     py_count_ls_bytesio 23 (hello_world ++ [x6c; x6c]) = Some (c1 + c2)).
Proof.
  apply (counts_add_over_concat no_heap hello_world [x6c; x6c] 23).
  - unfold INT_MAX. cbn. lia.
  - cbn. lia.
Defined.
